(** * WorkerBox: the typed message channel of [src/index.ts]

    [addWorker] builds a channel between the main thread (the initiator) and
    a Web Worker.  Both sides keep the same mailbox: a [messageQueue] of
    inbound messages nobody claimed yet and a list of [pendingReceivers],
    the resolvers of the [receive()] promises still waiting.

    The embedding keeps the program's variables as the state and lists what
    a step makes observable (promises resolved, values returned, callbacks
    invoked, messages posted, exceptions thrown) as its output.  The hosting
    runtime (Worker, postMessage, setTimeout, the event loop) is the
    environment: it chooses which event happens next.

    Callbacks are opaque.  When the program runs a subscription callback,
    the continuation of a promise or [workerFn], the output says so; the
    calls such a callback makes are later events of the trace.  Time is a
    clock in milliseconds that the environment advances, and a timer is
    taken at the contract of setTimeout: its callback runs once, no earlier
    than its delay after it was set, unless it was cleared.  The delay is
    the one setTimeout keeps: it reads its argument as a 32-bit integer. *)

From Stdlib Require Import List ZArith Lia Bool Arith String.
Import ListNotations.
Open Scope Z_scope.

(** ** Identities

    Closures and objects are compared by reference in the source
    ([pendingReceivers.indexOf(resolver)], [removeEventListener(handler)]);
    each one gets the number of its allocation. *)

Definition rid := nat.     (* a resolver closure, one per pending receive() *)
Definition sid := nat.     (* a subscription handler closure *)
Definition handle := nat.  (* a Worker object *)

(** What a step makes observable.  [I] is the type of inbound messages of
    the side that takes the step, [O] the type of the messages it posts. *)
Inductive output (I O : Type) : Type :=
| Resolved (r : rid) (v : option I)       (* resolve(v) on the promise of receive call r; None is undefined *)
| Polled (v : option I)                   (* the value poll() returns *)
| Called (c : sid) (m : I)                (* the callback of subscription c runs on m *)
| PostedTo (w : handle) (m : O)           (* worker.postMessage(m) on the main thread *)
| Posted (m : O)                          (* postMessage(m) inside the worker *)
| Spawned (w : handle) (revoked : bool)   (* new Worker(workerUrl), and whether the URL was revoked *)
| Terminated (w : handle)                 (* worker.terminate() *)
| Invoked (data : option I)               (* workerFn({..., data}) *)
| Closed                                  (* close() inside the worker *)
| Threw (e : string).                     (* throw new Error(e) *)

Arguments Resolved {I O} r v.
Arguments Polled {I O} v.
Arguments Called {I O} c m.
Arguments PostedTo {I O} w m.
Arguments Posted {I O} m.
Arguments Spawned {I O} w revoked.
Arguments Terminated {I O} w.
Arguments Invoked {I O} data.
Arguments Closed {I O}.
Arguments Threw {I O} e.

(** The listeners of a message event target: the one that feeds the mailbox
    and the handlers [subscribe] attaches. *)
Inductive listener : Type :=
| Route
| Handler (c : sid).

(** ** The mailbox

    The same code appears twice in the source, in [workerBootstrap]
    (lines 84-141) and in the body of [addWorker] (lines 154-230). *)
Module Mailbox.
Section Mailbox.
Context {I O : Type}.

Record t : Type := mk {
  messageQueue : list I;
  pendingReceivers : list rid;
  timers : list (rid * Z);   (* timers set and neither fired nor cleared: resolver, due time *)
  nextReceiver : rid
}.

Definition empty : t := mk [] [] [] 0%nat.

(** [clearTimeout(timer)] for the timer of resolver [r]. *)
Definition clearTimeout (r : rid) (ts : list (rid * Z)) : list (rid * Z) :=
  filter (fun e => negb (Nat.eqb (fst e) r)) ts.

(** [const index = a.indexOf(r); if (index >= 0) a.splice(index, 1)]. *)
Fixpoint splice (r : rid) (a : list rid) : list rid :=
  match a with
  | [] => []
  | x :: a' => if Nat.eqb x r then a' else x :: splice r a'
  end.

(** The time the timer of resolver [r] is due, when it has one. *)
Definition due (r : rid) (ts : list (rid * Z)) : option Z :=
  option_map snd (find (fun e => Nat.eqb (fst e) r) ts).

(** [setTimeout(handler, timeout)] takes its timeout as a WebIDL [long]:
    the number is wrapped to a signed 32-bit integer. *)
Definition toInt32 (ms : Z) : Z :=
  (ms + 2147483648) mod 4294967296 - 2147483648.

(** The delay of [setTimeout(handler, ms)]: the wrapped timeout, and 0 when
    that is negative.  A timeout of 0 to 2147483647 ms is kept as it is; a
    larger one is not (it wraps here, and a host that does not wrap sets it
    to 1 ms). *)
Definition delay (ms : Z) : Z := Z.max 0 (toInt32 ms).

(** [receive(timeoutMs)] called at time [now].  The call gets the next
    identity [r]; its promise is resolved at once from the queue, or its
    resolver is pushed, with a timer when [timeoutMs] is a number. *)
Definition receive (now : Z) (timeoutMs : option Z) (b : t) : t * list (output I O) :=
  let r := nextReceiver b in
  match messageQueue b with
  | m :: q => (mk q (pendingReceivers b) (timers b) (S r), [Resolved r (Some m)])
  | [] =>
      (mk [] (pendingReceivers b ++ [r])
          (match timeoutMs with
           | Some ms => timers b ++ [(r, now + delay ms)]
           | None => timers b
           end)
          (S r),
       [])
  end.

(** [poll()]: [messageQueue.shift()]. *)
Definition poll (b : t) : t * list (output I O) :=
  match messageQueue b with
  | m :: q => (mk q (pendingReceivers b) (timers b) (nextReceiver b), [Polled (Some m)])
  | [] => (b, [Polled None])
  end.

(** The message listener: the oldest resolver takes the message (and
    clears its timer), the queue takes it when nobody waits. *)
Definition route (msg : I) (b : t) : t * list (output I O) :=
  match pendingReceivers b with
  | resolver :: rest =>
      (mk (messageQueue b) rest (clearTimeout resolver (timers b)) (nextReceiver b),
       [Resolved resolver (Some msg)])
  | [] =>
      (mk (messageQueue b ++ [msg]) [] (timers b) (nextReceiver b), [])
  end.

(** The callback of the timer of resolver [r], run by the event loop at
    time [now].  A timer that is not set, or not yet due, does not run. *)
Definition timeout (now : Z) (r : rid) (b : t) : t * list (output I O) :=
  match due r (timers b) with
  | Some d =>
      if d <=? now
      then (mk (messageQueue b) (splice r (pendingReceivers b))
               (clearTimeout r (timers b)) (nextReceiver b),
            [Resolved r None])
      else (b, [])
  | None => (b, [])
  end.

(** [messageQueue.length = 0; pendingReceivers.length = 0] in [stop]. *)
Definition clear (b : t) : t := mk [] [] (timers b) (nextReceiver b).

(** One message event: its listeners run in the order they were added. *)
Fixpoint dispatch (msg : I) (ls : list listener) (b : t) : t * list (output I O) :=
  match ls with
  | [] => (b, [])
  | Route :: ls' =>
      let '(b1, o1) := route msg b in
      let '(b2, o2) := dispatch msg ls' b1 in
      (b2, o1 ++ o2)
  | Handler c :: ls' =>
      let '(b2, o2) := dispatch msg ls' b in
      (b2, Called c msg :: o2)
  end.

End Mailbox.
Arguments t : clear implicits.
End Mailbox.

(** ** The initiator: the closure [addWorker] returns (lines 153-235) *)
Module Main.
Section Main.
(* WorkerToMain and MainToWorker; the init data travels as an [O]. *)
Context {I O : Type}.

Record state : Type := mk {
  worker : option handle;                  (* let worker: null | Worker *)
  box : Mailbox.t I;                       (* messageQueue, pendingReceivers *)
  listeners : list (handle * listener);    (* addEventListener('message', _) on each Worker *)
  nextWorker : handle;
  nextHandler : sid;
  now : Z;                                 (* the clock of the event loop, in ms *)
  urlRevoked : bool                        (* URL.revokeObjectURL(workerUrl) has run *)
}.

Definition init : state := mk None Mailbox.empty [] 0%nat 0%nat 0 false.

Definition with_box (s : state) (b : Mailbox.t I) : state :=
  mk (worker s) b (listeners s) (nextWorker s) (nextHandler s) (now s) (urlRevoked s).

Definition with_listeners (s : state) (ls : list (handle * listener)) : state :=
  mk (worker s) (box s) ls (nextWorker s) (nextHandler s) (now s) (urlRevoked s).

Definition NotStarted : string := "Run Not Called".
Definition NotStartedHow : string := "Run Not Called; How did you even get this far?".

Definition listener_eqb (a b : listener) : bool :=
  match a, b with
  | Route, Route => true
  | Handler c, Handler d => Nat.eqb c d
  | _, _ => false
  end.

(** The listeners added to Worker [w], oldest first. *)
Definition on (w : handle) (ls : list (handle * listener)) : list listener :=
  map snd (filter (fun e => Nat.eqb (fst e) w) ls).

(** [w.removeEventListener('message', l)]. *)
Definition removeEventListener (w : handle) (l : listener)
    (ls : list (handle * listener)) : list (handle * listener) :=
  filter (fun e => negb (Nat.eqb (fst e) w && listener_eqb (snd e) l)) ls.

(** [start(data)], lines 218-233. *)
Definition start (data : O) (s : state) : state * list (output I O) :=
  match worker s with
  | Some _ => (s, [])
  | None =>
      let w := nextWorker s in
      (mk (Some w) (box s) (listeners s ++ [(w, Route)]) (S w)
          (nextHandler s) (now s) (urlRevoked s),
       [Spawned w (urlRevoked s); PostedTo w data])
  end.

(** [send(message)], lines 157-161. *)
Definition send (message : O) (s : state) : state * list (output I O) :=
  match worker s with
  | None => (s, [])
  | Some w => (s, [PostedTo w message])
  end.

(** [receive(timeoutMs)], lines 163-187. *)
Definition receive (timeoutMs : option Z) (s : state) : state * list (output I O) :=
  let '(b, o) := Mailbox.receive (now s) timeoutMs (box s) in (with_box s b, o).

(** [poll()], lines 189-191. *)
Definition poll (s : state) : state * list (output I O) :=
  let '(b, o) := Mailbox.poll (box s) in (with_box s b, o).

(** [subscribe(callback)], lines 193-206: the handler gets the next
    identity; the function returned is [unsubscribe] of that identity. *)
Definition subscribe (s : state) : state * list (output I O) :=
  match worker s with
  | None => (s, [Threw NotStarted])
  | Some w =>
      (mk (worker s) (box s) (listeners s ++ [(w, Handler (nextHandler s))])
          (nextWorker s) (S (nextHandler s)) (now s) (urlRevoked s),
       [])
  end.

(** The function [subscribe] returned for handler [c], lines 201-205.  It
    reads the variable [worker] when it is called. *)
Definition unsubscribe (c : sid) (s : state) : state * list (output I O) :=
  if Nat.ltb c (nextHandler s) then
    match worker s with
    | None => (s, [Threw NotStartedHow])
    | Some w => (with_listeners s (removeEventListener w (Handler c) (listeners s)), [])
    end
  else (s, []).

(** [stop()], lines 208-216. *)
Definition stop (s : state) : state * list (output I O) :=
  match worker s with
  | None => (s, [Threw NotStarted])
  | Some w =>
      (mk None (Mailbox.clear (box s)) (listeners s) (nextWorker s)
          (nextHandler s) (now s) true,
       [Terminated w])
  end.

(** A message event on Worker [w].  The runtime dispatches it only while
    [w] is alive: [terminate()] drops what [w] had posted, and the one
    Worker not terminated is the one the variable [worker] holds.  The
    listeners of [w] run one after the other within the step; the calls a
    callback makes while it runs are the events that follow in the trace,
    so a trace stands for a run in which no callback calls stop() or an
    unsubscribe function before the last listener of its event has run. *)
Definition message (w : handle) (msg : I) (s : state) : state * list (output I O) :=
  match worker s with
  | Some w' =>
      if Nat.eqb w' w
      then let '(b, o) := Mailbox.dispatch msg (on w (listeners s)) (box s) in
           (with_box s b, o)
      else (s, [])
  | None => (s, [])
  end.

(** The timer of resolver [r] fires. *)
Definition timeout (r : rid) (s : state) : state * list (output I O) :=
  let '(b, o) := Mailbox.timeout (now s) r (box s) in (with_box s b, o).

(** [d] ms pass. *)
Definition tick (d : Z) (s : state) : state :=
  mk (worker s) (box s) (listeners s) (nextWorker s) (nextHandler s)
     (now s + Z.max 0 d) (urlRevoked s).

(** The calls of the program and the events of the runtime. *)
Inductive event : Type :=
| Start (data : O)
| Send (message : O)
| Receive (timeoutMs : option Z)
| Poll
| Subscribe
| Unsubscribe (c : sid)
| Stop
| Message (w : handle) (msg : I)
| Timeout (r : rid)
| Tick (d : Z).

Definition step (s : state) (e : event) : state * list (output I O) :=
  match e with
  | Start data => start data s
  | Send message => send message s
  | Receive timeoutMs => receive timeoutMs s
  | Poll => poll s
  | Subscribe => subscribe s
  | Unsubscribe c => unsubscribe c s
  | Stop => stop s
  | Message w msg => message w msg s
  | Timeout r => timeout r s
  | Tick d => (tick d s, [])
  end.

Fixpoint run (s : state) (tr : list event) : state * list (output I O) :=
  match tr with
  | [] => (s, [])
  | e :: tr' =>
      let '(s1, o1) := step s e in
      let '(s2, o2) := run s1 tr' in
      (s2, o1 ++ o2)
  end.

End Main.
Arguments state : clear implicits.
Arguments event : clear implicits.
End Main.

(** ** The worker side: [workerBootstrap] (lines 82-146) *)
Module WorkerSide.
Section WorkerSide.
(* MainToWorker (the init data arrives as an [I]) and WorkerToMain. *)
Context {I O : Type}.

Record state : Type := mk {
  box : Mailbox.t I;             (* messageQueue, pendingReceivers *)
  listeners : list listener;     (* self.addEventListener('message', _) *)
  nextHandler : sid;
  started : bool;                (* workerFn has been called *)
  now : Z
}.

(** The receive() of line 143 is the first call on a new mailbox. *)
Definition bootReceiver : rid := Mailbox.nextReceiver (@Mailbox.empty I).

Definition resolves_boot (o : output I O) : bool :=
  match o with
  | Resolved r _ => Nat.eqb r bootReceiver
  | _ => false
  end.

(** [.then((data) => workerFn({send, receive, poll, stop, subscribe, data}))]
    on the promise of the first receive(). *)
Definition continuation (o : list (output I O)) : list (output I O) :=
  flat_map (fun x => match x with
                     | Resolved r v => if Nat.eqb r bootReceiver then [Invoked v] else []
                     | _ => []
                     end) o.

(** The mailbox moved to [b] with output [o]; the continuation of the
    first receive() runs when [o] resolves it. *)
Definition settle (s : state) (r : Mailbox.t I * list (output I O))
    : state * list (output I O) :=
  let '(b, o) := r in
  (mk b (listeners s) (nextHandler s) (started s || existsb resolves_boot o) (now s),
   o ++ continuation o).

(** The body of [workerBootstrap]: the message listener is added
    (line 132), then receive() is called without a timeout (line 143). *)
Definition workerBootstrap : state * list (output I O) :=
  settle (mk Mailbox.empty [Route] 0%nat false 0)
         (Mailbox.receive 0 None Mailbox.empty).

Definition with_box (s : state) (b : Mailbox.t I) : state :=
  mk b (listeners s) (nextHandler s) (started s) (now s).

Definition with_listeners (s : state) (ls : list listener) (n : sid) : state :=
  mk (box s) ls n (started s) (now s).

(** The helper API handed to [workerFn], lines 87-130. *)
Definition send (message : O) (s : state) : state * list (output I O) :=
  (s, [Posted message]).

Definition receive (timeoutMs : option Z) (s : state) : state * list (output I O) :=
  let '(b, o) := Mailbox.receive (now s) timeoutMs (box s) in (with_box s b, o).

Definition poll (s : state) : state * list (output I O) :=
  let '(b, o) := Mailbox.poll (box s) in (with_box s b, o).

Definition subscribe (s : state) : state * list (output I O) :=
  (with_listeners s (listeners s ++ [Handler (nextHandler s)]) (S (nextHandler s)), []).

Definition unsubscribe (c : sid) (s : state) : state * list (output I O) :=
  (with_listeners s
     (filter (fun l => match l with Handler d => negb (Nat.eqb d c) | Route => true end)
             (listeners s))
     (nextHandler s),
   []).

Definition stop (s : state) : state * list (output I O) := (s, [Closed]).

(** A message event on [self]. *)
Definition message (msg : I) (s : state) : state * list (output I O) :=
  settle s (Mailbox.dispatch msg (listeners s) (box s)).

Definition timeout (r : rid) (s : state) : state * list (output I O) :=
  settle s (Mailbox.timeout (now s) r (box s)).

Definition tick (d : Z) (s : state) : state :=
  mk (box s) (listeners s) (nextHandler s) (started s) (now s + Z.max 0 d).

Inductive event : Type :=
| Message (msg : I)
| Timeout (r : rid)
| Tick (d : Z)
| Send (message : O)
| Receive (timeoutMs : option Z)
| Poll
| Subscribe
| Unsubscribe (c : sid)
| Stop.

(** The helper API exists only inside [workerFn]: a call of it happens
    after [workerFn] was invoked, never before. *)
Definition user (s : state) (call : state -> state * list (output I O))
    : state * list (output I O) :=
  if started s then call s else (s, []).

Definition step (s : state) (e : event) : state * list (output I O) :=
  match e with
  | Message msg => message msg s
  | Timeout r => timeout r s
  | Tick d => (tick d s, [])
  | Send m => user s (send m)
  | Receive timeoutMs => user s (receive timeoutMs)
  | Poll => user s poll
  | Subscribe => user s subscribe
  | Unsubscribe c => user s (if Nat.ltb c (nextHandler s) then unsubscribe c else fun s' => (s', []))
  | Stop => user s stop
  end.

Fixpoint run (s : state) (tr : list event) : state * list (output I O) :=
  match tr with
  | [] => (s, [])
  | e :: tr' =>
      let '(s1, o1) := step s e in
      let '(s2, o2) := run s1 tr' in
      (s2, o1 ++ o2)
  end.

(** The messages of the message events of a trace, in order. *)
Fixpoint arrivals (tr : list event) : list I :=
  match tr with
  | [] => []
  | Message msg :: tr' => msg :: arrivals tr'
  | _ :: tr' => arrivals tr'
  end.

End WorkerSide.
Arguments state : clear implicits.
Arguments event : clear implicits.
End WorkerSide.

(** ** The registry: the head of [addWorker] (lines 70-80, 237) *)
Module Registry.
Section Registry.
(* The channel [addWorker] returns. *)
Context {Api : Type}.

(** What the host offers for the fingerprint.  [btoa] is missing on some
    hosts and [Buffer] on others (a ReferenceError); [encodeURIComponent]
    throws a URIError on a lone surrogate and [btoa] an
    InvalidCharacterError outside Latin-1. *)
Record runtime : Type := {
  encodeURIComponent : string -> option string;
  btoa : option (string -> option string);
  Buffer_base64 : option (string -> string)   (* Buffer.from(s).toString('base64') *)
}.

Inductive outcome (A : Type) : Type :=
| Returned (a : A)
| Thrown.

Definition prefix : string := "__WebWorker_".

(** [btoa(encodeURIComponent(src))], line 73. *)
Definition primary (rt : runtime) (src : string) : option string :=
  match btoa rt with
  | Some f => match encodeURIComponent rt src with
              | Some u => f u
              | None => None
              end
  | None => None
  end.

(** [Buffer.from(src).toString('base64')], line 75. *)
Definition fallback (rt : runtime) (src : string) : option string :=
  match Buffer_base64 rt with
  | Some f => Some (f src)
  | None => None
  end.

(** Lines 70-76: the try block, and the catch block when the try block
    threw.  An exception in the catch block is caught by nothing. *)
Definition globalKey (rt : runtime) (src : string) : outcome string :=
  match primary rt src with
  | Some e => Returned _ (prefix ++ e)%string
  | None =>
      match fallback rt src with
      | Some e => Returned _ (prefix ++ e)%string
      | None => Thrown _
      end
  end.

(** [globalThis[key]]. *)
Fixpoint lookup (key : string) (g : list (string * Api)) : option Api :=
  match g with
  | [] => None
  | (k, a) :: g' => if String.eqb k key then Some a else lookup key g'
  end.

(** [addWorker(workerCallback)] on the source text [src] of the callback;
    [fresh] is the channel lines 82-235 build.  The result is the channel
    returned and the new [globalThis]. *)
Definition addWorker (rt : runtime) (fresh : Api) (globalThis : list (string * Api))
    (src : string) : outcome (Api * list (string * Api)) :=
  match globalKey rt src with
  | Thrown _ => Thrown _
  | Returned _ key =>
      match lookup key globalThis with
      | Some api => Returned _ (api, globalThis)
      | None => Returned _ (fresh, (key, fresh) :: globalThis)
      end
  end.

End Registry.
Arguments runtime : clear implicits.
Arguments Returned {A} a.
Arguments Thrown {A}.
End Registry.

(** ** Reading an output *)
Section Observations.
Context {I O : Type}.

(** The values the promise of receive call [r] was resolved with. *)
Fixpoint resolutions (r : rid) (out : list (output I O)) : list (option I) :=
  match out with
  | [] => []
  | Resolved r' v :: out' =>
      if Nat.eqb r' r then v :: resolutions r out' else resolutions r out'
  | _ :: out' => resolutions r out'
  end.

(** The messages handed to receive() and poll() callers, in order. *)
Fixpoint delivered (out : list (output I O)) : list I :=
  match out with
  | [] => []
  | Resolved _ (Some m) :: out' => m :: delivered out'
  | Polled (Some m) :: out' => m :: delivered out'
  | _ :: out' => delivered out'
  end.

(** The messages the callback of subscription [c] ran on, in order. *)
Fixpoint calls (c : sid) (out : list (output I O)) : list I :=
  match out with
  | [] => []
  | Called c' m :: out' => if Nat.eqb c' c then m :: calls c out' else calls c out'
  | _ :: out' => calls c out'
  end.

(** The messages posted to Worker [w], in order. *)
Fixpoint posts (w : handle) (out : list (output I O)) : list O :=
  match out with
  | [] => []
  | PostedTo w' m :: out' => if Nat.eqb w' w then m :: posts w out' else posts w out'
  | _ :: out' => posts w out'
  end.

(** Did the step throw? *)
Definition raises (out : list (output I O)) : bool :=
  existsb (fun o => match o with Threw _ => true | _ => false end) out.

(** The Workers a step created. *)
Fixpoint spawns (out : list (output I O)) : list handle :=
  match out with
  | [] => []
  | Spawned w _ :: out' => w :: spawns out'
  | _ :: out' => spawns out'
  end.

(** The data [workerFn] was invoked with. *)
Fixpoint invocations (out : list (output I O)) : list (option I) :=
  match out with
  | [] => []
  | Invoked d :: out' => d :: invocations out'
  | _ :: out' => invocations out'
  end.

End Observations.

(** Reading a trace of the initiator. *)
Section Traces.
Context {I O : Type}.

(** The messages of the message events on Worker [w]. *)
Fixpoint arrivals_on (w : handle) (tr : list (Main.event I O)) : list I :=
  match tr with
  | [] => []
  | Main.Message w' m :: tr' =>
      if Nat.eqb w' w then m :: arrivals_on w tr' else arrivals_on w tr'
  | _ :: tr' => arrivals_on w tr'
  end.

Definition is_start (e : Main.event I O) : bool :=
  match e with Main.Start _ => true | _ => false end.

Definition is_stop (e : Main.event I O) : bool :=
  match e with Main.Stop => true | _ => false end.

Definition is_message (e : Main.event I O) : bool :=
  match e with Main.Message _ _ => true | _ => false end.

Definition is_timeout_of (r : rid) (e : Main.event I O) : bool :=
  match e with Main.Timeout r' => Nat.eqb r' r | _ => false end.


(** No event of [tr] satisfies [p]. *)
Definition without (p : Main.event I O -> bool) (tr : list (Main.event I O)) : bool :=
  forallb (fun e => negb (p e)) tr.

End Traces.

(** ** Conditions on states *)

(** At most one of the queue and the pending list holds something. *)
Definition exclusive {I : Type} (b : Mailbox.t I) : Prop :=
  Mailbox.messageQueue b = [] \/ Mailbox.pendingReceivers b = [].

(** Resolvers are allocated in order: the ones pending and the ones with a
    timer are older than the next one, and none is pending twice. *)
Definition fresh {I : Type} (b : Mailbox.t I) : Prop :=
  (forall r, In r (Mailbox.pendingReceivers b) -> (r < Mailbox.nextReceiver b)%nat) /\
  (forall r d, In (r, d) (Mailbox.timers b) -> (r < Mailbox.nextReceiver b)%nat) /\
  NoDup (Mailbox.pendingReceivers b).

(** Receive call [r] is over: its resolver is not pending and has no
    timer. *)
Definition settled {I : Type} (r : rid) (b : Mailbox.t I) : Prop :=
  ~ In r (Mailbox.pendingReceivers b) /\
  (forall d, ~ In (r, d) (Mailbox.timers b)) /\
  (r < Mailbox.nextReceiver b)%nat.

(** No Worker and nothing queued: the initiator before the first start()
    and after a stop(). *)
Definition idle {I : Type} (s : Main.state I) : Prop :=
  Main.worker s = None /\ Mailbox.messageQueue (Main.box s) = [].

(** The listeners of the Workers: every Worker that has listeners was
    created, every handler was allocated, and the Worker in use has the
    mailbox listener first (start() adds it to a new Worker) and then
    handlers, none twice. *)
Definition tidy {I : Type} (s : Main.state I) : Prop :=
  (forall w l, In (w, l) (Main.listeners s) -> (w < Main.nextWorker s)%nat) /\
  (forall w c, In (w, Handler c) (Main.listeners s) -> (c < Main.nextHandler s)%nat) /\
  (forall w, Main.worker s = Some w ->
     (w < Main.nextWorker s)%nat /\
     exists cs, Main.on w (Main.listeners s) = Route :: map Handler cs /\ NoDup cs).

(** What holds in every state of the initiator. *)
Definition sound {I : Type} (s : Main.state I) : Prop :=
  exclusive (Main.box s) /\ fresh (Main.box s) /\ tidy s.


(** The timer of receive call [r] is set and due at [d]. *)
Definition armed {I : Type} (r : rid) (d : Z) (s : Main.state I) : Prop :=
  Mailbox.due r (Mailbox.timers (Main.box s)) = Some d /\
  (r < Mailbox.nextReceiver (Main.box s))%nat.

(** The listeners of [self]: the mailbox listener, added first by
    [workerBootstrap], and then handlers. *)
Definition wtidy {I : Type} (s : WorkerSide.state I) : Prop :=
  exists cs, WorkerSide.listeners s = Route :: map Handler cs.

(** What holds in every state of the worker side. *)
Definition wsound {I : Type} (s : WorkerSide.state I) : Prop :=
  exclusive (WorkerSide.box s) /\ fresh (WorkerSide.box s) /\ wtidy s.

(** The worker before the first message: its first receive() is pending,
    without a timer, and [workerFn] has not been called. *)
Definition booting {I : Type} (s : WorkerSide.state I) : Prop :=
  WorkerSide.started s = false /\
  WorkerSide.box s = Mailbox.mk [] [@WorkerSide.bootReceiver I] [] 1%nat /\
  WorkerSide.listeners s = [Route].

(** The worker after it: [workerFn] runs and the first receive() is over. *)
Definition serving {I : Type} (s : WorkerSide.state I) : Prop :=
  WorkerSide.started s = true /\ wsound s /\
  settled (@WorkerSide.bootReceiver I) (WorkerSide.box s).

(** ** Two hosts *)

(** A host without [btoa] whose [Buffer] encodes (the encoding itself is
    not at stake: the text stands for its base64 form). *)
Definition host_without_btoa : Registry.runtime :=
  {| Registry.encodeURIComponent := fun s => Some s;
     Registry.btoa := None;
     Registry.Buffer_base64 := Some (fun s => s) |}.

(** A browser: [btoa] but no [Buffer], and a source text on which
    [encodeURIComponent] throws (it holds a lone surrogate). *)
Definition browser_lone_surrogate : Registry.runtime :=
  {| Registry.encodeURIComponent := fun _ => None;
     Registry.btoa := Some (fun s => Some s);
     Registry.Buffer_base64 := None |}.

(** ** More readings and conditions *)

(** The values poll() returned, in order. *)
Fixpoint polled {I O : Type} (out : list (output I O)) : list (option I) :=
  match out with
  | [] => []
  | Polled v :: out' => v :: polled out'
  | _ :: out' => polled out'
  end.

(** The messages of the send() calls of a trace, in order. *)
Fixpoint sends {I O : Type} (tr : list (Main.event I O)) : list O :=
  match tr with
  | [] => []
  | Main.Send m :: tr' => m :: sends tr'
  | _ :: tr' => sends tr'
  end.

(** The resolver of receive call [r] is off the pending list while its
    timer, due at [d], is still set. *)
Definition orphaned {I : Type} (r : rid) (d : Z) (b : Mailbox.t I) : Prop :=
  ~ In r (Mailbox.pendingReceivers b) /\
  Mailbox.due r (Mailbox.timers b) = Some d /\
  (r < Mailbox.nextReceiver b)%nat.

(** Handler [c] was allocated and is not attached to the Worker in use. *)
Definition detached {I : Type} (c : sid) (s : Main.state I) : Prop :=
  sound s /\ (c < Main.nextHandler s)%nat /\
  forall w, Main.worker s = Some w -> ~ In (w, Handler c) (Main.listeners s).




(** * Properties *)

(** ** Running a trace *)
Section RunFacts.
Context {I O : Type}.
Implicit Types (s : Main.state I) (tr : list (Main.event I O)).

Lemma main_run_app s tr1 tr2 :
  Main.run s (tr1 ++ tr2) =
  (fst (Main.run (fst (Main.run s tr1)) tr2),
   snd (Main.run s tr1) ++ snd (Main.run (fst (Main.run s tr1)) tr2)).
Proof.
  revert s. induction tr1 as [|e tr1 IH]; intros s; simpl.
  - destruct (Main.run s tr2); reflexivity.
  - destruct (Main.step s e) as [s1 o1]. rewrite IH.
    destruct (Main.run s1 tr1) as [s2 o2]; simpl.
    now rewrite app_assoc.
Qed.

Lemma main_run_cons s e tr :
  Main.run s (e :: tr) =
  (fst (Main.run (fst (Main.step s e)) tr),
   snd (Main.step s e) ++ snd (Main.run (fst (Main.step s e)) tr)).
Proof.
  simpl. destruct (Main.step s e) as [s1 o1]; simpl.
  destruct (Main.run s1 tr); reflexivity.
Qed.

Lemma without_cons (p : Main.event I O -> bool) e tr :
  without p (e :: tr) = negb (p e) && without p tr.
Proof. reflexivity. Qed.

End RunFacts.

(** ** The channel while the variable [worker] is null *)
Section NotRunning.
Context {I O : Type}.
Implicit Types (s : Main.state I) (tr : list (Main.event I O)).

Lemma idle_init : idle (@Main.init I).
Proof. split; reflexivity. Qed.

Lemma idle_stop s w :
  Main.worker s = Some w -> idle (fst (@Main.stop I O s)).
Proof. intros Hw. unfold Main.stop. rewrite Hw. split; reflexivity. Qed.

(** Only start() ends it: every other step keeps the channel idle,
    creates no Worker and keeps the counters of Workers and of the URL. *)
Lemma idle_step s (e : Main.event I O) :
  idle s -> is_start e = false ->
  idle (fst (Main.step s e)) /\
  spawns (snd (Main.step s e)) = [] /\
  Main.nextWorker (fst (Main.step s e)) = Main.nextWorker s /\
  Main.urlRevoked (fst (Main.step s e)) = Main.urlRevoked s /\
  Main.nextHandler (fst (Main.step s e)) = Main.nextHandler s.
Proof.
  intros [Hw Hq] He. unfold idle.
  destruct e; try discriminate He; simpl;
    unfold Main.send, Main.receive, Main.poll, Main.subscribe, Main.unsubscribe,
      Main.stop, Main.message, Main.timeout, Mailbox.receive, Mailbox.poll,
      Mailbox.timeout;
    rewrite ?Hw, ?Hq; simpl; auto.
  - destruct (Nat.ltb c (Main.nextHandler s)); simpl; auto.
  - destruct (Mailbox.due r (Mailbox.timers (Main.box s))) as [d|]; simpl; auto.
    destruct (d <=? Main.now s); simpl; auto.
Qed.

Lemma idle_run s tr :
  idle s -> without is_start tr = true ->
  idle (fst (Main.run s tr)) /\
  spawns (snd (Main.run s tr)) = [] /\
  Main.nextWorker (fst (Main.run s tr)) = Main.nextWorker s /\
  Main.urlRevoked (fst (Main.run s tr)) = Main.urlRevoked s /\
  Main.nextHandler (fst (Main.run s tr)) = Main.nextHandler s.
Proof.
  revert s. induction tr as [|e tr IH]; intros s Hs Htr.
  - simpl. auto.
  - rewrite without_cons in Htr. apply andb_true_iff in Htr as [He Htr].
    apply negb_true_iff in He.
    destruct (idle_step s e Hs He) as (Hs1 & Hsp & Hn & Hu & Hh).
    destruct (IH _ Hs1 Htr) as (Hs2 & Hsp2 & Hn2 & Hu2 & Hh2).
    rewrite main_run_cons; simpl.
    repeat split; try apply Hs2; try congruence.
    clear - Hsp Hsp2. revert Hsp.
    generalize (snd (Main.step s e)) as o.
    induction o as [|x o IHo]; simpl; auto.
    destruct x; simpl; auto; discriminate.
Qed.

(** What each call does on an idle channel. *)
Lemma idle_calls s :
  idle s ->
  (forall m : O, Main.send m s = (s, [])) /\
  @Main.subscribe I O s = (s, [Threw Main.NotStarted]) /\
  @Main.stop I O s = (s, [Threw Main.NotStarted]) /\
  @Main.poll I O s = (s, [Polled None]) /\
  (forall t, snd (@Main.receive I O t s) = [] /\
             Mailbox.pendingReceivers (Main.box (fst (@Main.receive I O t s))) =
             Mailbox.pendingReceivers (Main.box s) ++ [Mailbox.nextReceiver (Main.box s)]).
Proof.
  intros [Hw Hq].
  unfold Main.send, Main.subscribe, Main.stop, Main.poll, Main.receive,
    Mailbox.poll, Mailbox.receive.
  rewrite Hw, Hq. simpl. repeat split; auto.
  destruct s as [w b ls nw nh n u]; simpl in *. reflexivity.
Qed.

End NotRunning.

(** ** Calls on a channel that is not running (C4, C5, C6, C9) *)

(** C5 (amended): on the initiator, before start() has been called,
    send(message) does nothing and raises nothing and subscribe() throws
    "Run Not Called"; poll() returns undefined without throwing, and
    receive() throws nothing either: it pushes a resolver and returns a
    promise that is still pending. *)
Theorem calls_before_start {I O : Type} (tr : list (Main.event I O)) :
  without is_start tr = true ->
  let s := fst (Main.run Main.init tr) in
  (forall m : O, Main.send m s = (s, [])) /\
  @Main.subscribe I O s = (s, [Threw Main.NotStarted]) /\
  @Main.poll I O s = (s, [Polled None]) /\
  (forall t, snd (@Main.receive I O t s) = [] /\
             Mailbox.pendingReceivers (Main.box (fst (@Main.receive I O t s))) =
             Mailbox.pendingReceivers (Main.box s) ++ [Mailbox.nextReceiver (Main.box s)]).
Proof.
  intros Htr s.
  destruct (idle_run Main.init tr idle_init Htr) as (Hidle & _).
  destruct (idle_calls (O:=O) _ Hidle) as (Hsend & Hsub & _ & Hpoll & Hrecv).
  auto.
Qed.

Lemma calls_before_start_witness :
  without is_start [Main.Receive (Some 3); Main.Send 1%nat; @Main.Poll nat nat] = true /\
  @Main.poll nat nat
    (fst (Main.run Main.init [Main.Receive (Some 3); Main.Send 1%nat; @Main.Poll nat nat])) =
  (fst (Main.run Main.init [Main.Receive (Some 3); Main.Send 1%nat; @Main.Poll nat nat]),
   [Polled None]).
Proof.
  split; [reflexivity|].
  exact (proj1 (proj2 (proj2
    (calls_before_start [Main.Receive (Some 3); Main.Send 1%nat; @Main.Poll nat nat]
       eq_refl)))).
Defined.

(** C5 as stated fails: before start(), poll() returns undefined and
    receive() returns a pending promise; neither raises. *)
Lemma poll_receive_before_start_do_not_fail :
  @Main.poll nat nat Main.init = (Main.init, [Polled None]) /\
  raises (snd (@Main.poll nat nat Main.init)) = false /\
  raises (snd (@Main.receive nat nat None Main.init)) = false /\
  raises (snd (@Main.receive nat nat (Some 10) Main.init)) = false.
Proof. repeat split. Qed.

(** C4 (amended): after a stop() that found the channel running, and until
    start() is called again, subscribe() and stop() throw "Run Not Called";
    send() does nothing and raises nothing, poll() returns undefined
    without throwing, and receive() throws nothing: it pushes a resolver
    and returns a pending promise. *)
Theorem calls_after_stop {I O : Type} (s0 : Main.state I) (w : handle)
    (tr : list (Main.event I O)) :
  Main.worker s0 = Some w ->
  without is_start tr = true ->
  let s := fst (Main.run (fst (@Main.stop I O s0)) tr) in
  @Main.subscribe I O s = (s, [Threw Main.NotStarted]) /\
  @Main.stop I O s = (s, [Threw Main.NotStarted]) /\
  (forall m : O, Main.send m s = (s, [])) /\
  @Main.poll I O s = (s, [Polled None]) /\
  (forall t, snd (@Main.receive I O t s) = [] /\
             Mailbox.pendingReceivers (Main.box (fst (@Main.receive I O t s))) =
             Mailbox.pendingReceivers (Main.box s) ++ [Mailbox.nextReceiver (Main.box s)]).
Proof.
  intros Hw Htr s.
  destruct (idle_run _ tr (idle_stop (O:=O) s0 w Hw) Htr) as (Hidle & _).
  destruct (idle_calls (O:=O) _ Hidle) as (Hsend & Hsub & Hstop & Hpoll & Hrecv).
  auto.
Qed.

Lemma calls_after_stop_witness :
  Main.worker (fst (Main.run (@Main.init nat) [@Main.Start nat nat 7%nat])) = Some 0%nat /\
  without is_start [@Main.Poll nat nat; Main.Send 2%nat] = true /\
  @Main.stop nat nat
    (fst (Main.run (fst (@Main.stop nat nat (fst (Main.run Main.init [@Main.Start nat nat 7%nat]))))
            [@Main.Poll nat nat; Main.Send 2%nat])) =
  (fst (Main.run (fst (@Main.stop nat nat (fst (Main.run Main.init [@Main.Start nat nat 7%nat]))))
          [@Main.Poll nat nat; Main.Send 2%nat]),
   [Threw Main.NotStarted]).
Proof.
  split; [reflexivity|]. split; [reflexivity|].
  exact (proj1 (proj2
    (calls_after_stop (fst (Main.run (@Main.init nat) [@Main.Start nat nat 7%nat])) 0%nat
       [@Main.Poll nat nat; Main.Send 2%nat] eq_refl eq_refl))).
Defined.

(** C4 as stated fails: after start() and stop(), send(), poll() and
    receive() raise nothing. *)
Lemma send_poll_receive_after_stop_do_not_raise :
  let s := fst (Main.run (@Main.init nat) [@Main.Start nat nat 7%nat; Main.Stop]) in
  Main.send 1%nat s = (s, []) /\
  @Main.poll nat nat s = (s, [Polled None]) /\
  raises (snd (@Main.receive nat nat None s)) = false /\
  raises (snd (@Main.receive nat nat (Some 10) s)) = false.
Proof. repeat split. Qed.

(** C6 (amended): after a stop() that found the channel running, no call
    other than start() returns the channel to running or creates a Worker.
    stop() sets the variable [worker] to null and empties the queue and the
    pending list; from then on, through every sequence of calls and events
    without a start(), [worker] stays null, the queue stays empty and no
    Worker is created. *)
Theorem stopped_until_start {I O : Type} (s0 : Main.state I) (w : handle)
    (tr : list (Main.event I O)) :
  Main.worker s0 = Some w ->
  without is_start tr = true ->
  let s1 := fst (@Main.stop I O s0) in
  let s2 := fst (Main.run s1 tr) in
  (Main.worker s1 = None /\
   Mailbox.messageQueue (Main.box s1) = [] /\
   Mailbox.pendingReceivers (Main.box s1) = []) /\
  Main.worker s2 = None /\
  Mailbox.messageQueue (Main.box s2) = [] /\
  spawns (snd (Main.run s1 tr)) = [].
Proof.
  intros Hw Htr s1 s2.
  destruct (idle_run s1 tr (idle_stop (O:=O) s0 w Hw) Htr) as ((Hw2 & Hq2) & Hsp & _).
  fold s2 in Hw2, Hq2.
  assert (Hs1 : s1 = Main.mk None (Mailbox.clear (Main.box s0)) (Main.listeners s0)
                      (Main.nextWorker s0) (Main.nextHandler s0) (Main.now s0) true).
  { unfold s1, Main.stop. rewrite Hw. reflexivity. }
  repeat split; try (rewrite Hs1; reflexivity); auto.
Qed.

Lemma stopped_until_start_witness :
  let s0 := fst (Main.run (@Main.init nat) [@Main.Start nat nat 7%nat]) in
  let tr := [@Main.Receive nat nat None; Main.Send 2%nat; Main.Subscribe;
             Main.Message 0%nat 10%nat; Main.Poll] in
  Main.worker s0 = Some 0%nat /\
  without is_start tr = true /\
  Main.worker (fst (Main.run (fst (@Main.stop nat nat s0)) tr)) = None /\
  spawns (snd (Main.run (fst (@Main.stop nat nat s0)) tr)) = [].
Proof.
  split; [reflexivity|]. split; [reflexivity|].
  pose proof (stopped_until_start
    (fst (Main.run (@Main.init nat) [@Main.Start nat nat 7%nat])) 0%nat
    [@Main.Receive nat nat None; Main.Send 2%nat; Main.Subscribe;
     Main.Message 0%nat 10%nat; Main.Poll] eq_refl eq_refl) as (_ & Hw & _ & Hsp).
  split; [exact Hw|exact Hsp].
Defined.

(** C6 as stated fails: start() after stop() stores a new Worker in
    [worker] (the channel is running again: send() posts) and calls
    [new Worker] a second time. *)
Lemma start_after_stop_runs_again :
  let r := Main.run (@Main.init nat)
             [@Main.Start nat nat 7%nat; Main.Stop; Main.Start 8%nat; Main.Send 9%nat] in
  Main.worker (fst r) = Some 1%nat /\
  spawns (snd r) = [0%nat; 1%nat] /\
  posts 1%nat (snd r) = [8%nat; 9%nat].
Proof. repeat split. Qed.

(** C9 (amended): the function subscribe() returned throws
    "Run Not Called; How did you even get this far?" when it is called
    after stop() and before a later start(), and changes nothing then;
    called while a Worker is stored in [worker] it throws nothing and
    removes its handler from that Worker. *)
Theorem unsubscribe_after_stop {I O : Type} (s0 : Main.state I) (w : handle)
    (tr : list (Main.event I O)) (c : sid) :
  Main.worker s0 = Some w ->
  (c < Main.nextHandler s0)%nat ->
  without is_start tr = true ->
  let s := fst (Main.run (fst (@Main.stop I O s0)) tr) in
  @Main.unsubscribe I O c s = (s, [Threw Main.NotStartedHow]) /\
  raises (snd (@Main.unsubscribe I O c s0)) = false /\
  ~ In (Handler c) (Main.on w (Main.listeners (fst (@Main.unsubscribe I O c s0)))).
Proof.
  intros Hw Hc Htr s.
  destruct (idle_run _ tr (idle_stop (O:=O) s0 w Hw) Htr) as ((Hw2 & _) & _ & _ & _ & Hh).
  fold s in Hw2, Hh.
  assert (Hh0 : Main.nextHandler (fst (@Main.stop I O s0)) = Main.nextHandler s0).
  { unfold Main.stop. rewrite Hw. reflexivity. }
  apply Nat.ltb_lt in Hc.
  split; [|split].
  - unfold Main.unsubscribe. rewrite Hh, Hh0, Hc, Hw2. reflexivity.
  - unfold Main.unsubscribe. rewrite Hc, Hw. reflexivity.
  - unfold Main.unsubscribe. rewrite Hc, Hw. simpl.
    unfold Main.on, Main.removeEventListener. intros Hin.
    apply in_map_iff in Hin as ([w' l] & Hl & Hin). simpl in Hl. subst l.
    apply filter_In in Hin as (Hin & Hw').
    apply filter_In in Hin as (_ & Hneg). simpl in *.
    rewrite Hw', Nat.eqb_refl in Hneg. discriminate.
Qed.

Lemma unsubscribe_after_stop_witness :
  let s0 := fst (Main.run (@Main.init nat) [@Main.Start nat nat 7%nat; Main.Subscribe]) in
  Main.worker s0 = Some 0%nat /\
  (0 < Main.nextHandler s0)%nat /\
  without is_start [@Main.Poll nat nat] = true /\
  @Main.unsubscribe nat nat 0%nat
     (fst (Main.run (fst (@Main.stop nat nat s0)) [@Main.Poll nat nat])) =
  (fst (Main.run (fst (@Main.stop nat nat s0)) [@Main.Poll nat nat]),
   [Threw Main.NotStartedHow]).
Proof.
  split; [reflexivity|]. split; [apply Nat.lt_0_1|]. split; [reflexivity|].
  exact (proj1
    (unsubscribe_after_stop
       (fst (Main.run (@Main.init nat) [@Main.Start nat nat 7%nat; Main.Subscribe]))
       0%nat [@Main.Poll nat nat] 0%nat eq_refl Nat.lt_0_1 eq_refl)).
Defined.

(** C9 as stated fails: start(), subscribe(), stop(), and then the function
    subscribe() returned throws. *)
Lemma unsubscribe_after_stop_raises :
  let s := fst (Main.run (@Main.init nat)
                  [@Main.Start nat nat 7%nat; Main.Subscribe; Main.Stop]) in
  raises (snd (@Main.unsubscribe nat nat 0%nat s)) = true /\
  snd (@Main.unsubscribe nat nat 0%nat s) = [Threw Main.NotStartedHow].
Proof. split; reflexivity. Qed.

(** ** The fingerprint (C10) *)

(** C10 (amended): when the primary encoding of the worker source fails,
    the key is built with the alternate encoding and the channel is
    memoized under it; when the alternate encoding fails too, its exception
    leaves the construction call: no channel is returned and nothing is
    stored. *)
Theorem fingerprint_fallback {Api : Type} (rt : Registry.runtime) (fresh : Api)
    (globalThis : list (string * Api)) (src : string) :
  Registry.primary rt src = None ->
  (forall f, Registry.Buffer_base64 rt = Some f ->
     Registry.globalKey rt src = Registry.Returned (Registry.prefix ++ f src)%string /\
     Registry.addWorker rt fresh globalThis src =
       match Registry.lookup (Registry.prefix ++ f src)%string globalThis with
       | Some api => Registry.Returned (api, globalThis)
       | None =>
           Registry.Returned
             (fresh, ((Registry.prefix ++ f src)%string, fresh) :: globalThis)
       end) /\
  (Registry.Buffer_base64 rt = None ->
     Registry.addWorker rt fresh globalThis src = Registry.Thrown).
Proof.
  intros Hp. unfold Registry.addWorker, Registry.globalKey, Registry.fallback.
  rewrite Hp. split.
  - intros f Hf. rewrite Hf. split; reflexivity.
  - intros Hb. rewrite Hb. reflexivity.
Qed.

Lemma fingerprint_fallback_witness :
  Registry.primary host_without_btoa "f" = None /\
  Registry.addWorker host_without_btoa 1%nat [] "f" =
    Registry.Returned (1%nat, [("__WebWorker_f"%string, 1%nat)]).
Proof.
  split; [reflexivity|].
  exact (proj2 (proj1 (fingerprint_fallback host_without_btoa 1%nat [] "f" eq_refl)
                  (fun s => s) eq_refl)).
Defined.

(** C10 as stated fails: when both encodings fail the construction call
    throws. *)
Lemma both_encodings_fail_aborts :
  Registry.primary browser_lone_surrogate "f" = None /\
  Registry.fallback browser_lone_surrogate "f" = None /\
  Registry.addWorker browser_lone_surrogate 1%nat [] "f" = Registry.Thrown.
Proof. repeat split. Qed.

(** ** Invariants of the mailbox *)

Section MailboxFacts.
Context {I O : Type}.
Implicit Types (b : Mailbox.t I) (msg : I) (r : rid).

Lemma splice_subset r a x : In x (Mailbox.splice r a) -> In x a.
Proof.
  induction a as [|y a IH]; simpl; auto.
  destruct (Nat.eqb y r); simpl; tauto.
Qed.

Lemma splice_NoDup r a : NoDup a -> NoDup (Mailbox.splice r a).
Proof.
  induction 1 as [|y a Hy Hnd IH]; simpl; [constructor|].
  destruct (Nat.eqb y r); auto.
  constructor; auto. intros Hin. apply Hy. eapply splice_subset; eauto.
Qed.

Lemma splice_removes r a : NoDup a -> ~ In r (Mailbox.splice r a).
Proof.
  induction 1 as [|y a Hy Hnd IH]; simpl; auto.
  destruct (Nat.eqb_spec y r) as [->|Hne]; auto.
  simpl. intros [Heq|Hin]; auto.
Qed.

Lemma clearTimeout_subset r ts e : In e (Mailbox.clearTimeout r ts) -> In e ts.
Proof. unfold Mailbox.clearTimeout. intros H. now apply filter_In in H. Qed.

Lemma clearTimeout_removes r ts d : ~ In (r, d) (Mailbox.clearTimeout r ts).
Proof.
  unfold Mailbox.clearTimeout. intros H. apply filter_In in H as [_ H].
  simpl in H. now rewrite Nat.eqb_refl in H.
Qed.

Lemma due_In r ts d : Mailbox.due r ts = Some d -> In (r, d) ts.
Proof.
  unfold Mailbox.due.
  destruct (find (fun e => Nat.eqb (fst e) r) ts) as [[r' d']|] eqn:Hf; [|discriminate].
  simpl. intros [= ->]. apply find_some in Hf as [Hin Heq].
  simpl in Heq. apply Nat.eqb_eq in Heq. now subst.
Qed.

(** *** [exclusive] is kept by every operation *)

Lemma exclusive_empty : exclusive (@Mailbox.empty I).
Proof. now left. Qed.

Lemma exclusive_clear b : exclusive (Mailbox.clear b).
Proof. now left. Qed.

Lemma exclusive_receive now t b :
  exclusive b -> exclusive (fst (@Mailbox.receive I O now t b)).
Proof.
  unfold exclusive, Mailbox.receive. intros [Hq|Hp].
  - rewrite Hq. now left.
  - destruct (Mailbox.messageQueue b); simpl; auto.
Qed.

Lemma exclusive_poll b : exclusive b -> exclusive (fst (@Mailbox.poll I O b)).
Proof.
  unfold exclusive, Mailbox.poll. intros [Hq|Hp].
  - rewrite Hq. now left.
  - destruct (Mailbox.messageQueue b); simpl; auto.
Qed.

Lemma exclusive_route msg b : exclusive b -> exclusive (fst (@Mailbox.route I O msg b)).
Proof.
  unfold exclusive, Mailbox.route. intros [Hq|Hp].
  - destruct (Mailbox.pendingReceivers b); simpl; auto.
  - rewrite Hp. now right.
Qed.

Lemma exclusive_timeout now r b :
  exclusive b -> exclusive (fst (@Mailbox.timeout I O now r b)).
Proof.
  unfold exclusive, Mailbox.timeout. intros H.
  destruct (Mailbox.due r (Mailbox.timers b)) as [d|]; auto.
  destruct (d <=? now); auto. simpl.
  destruct H as [Hq|Hp]; auto. rewrite Hp. now right.
Qed.

Lemma exclusive_dispatch msg ls b :
  exclusive b -> exclusive (fst (@Mailbox.dispatch I O msg ls b)).
Proof.
  revert b. induction ls as [|[|c] ls IH]; intros b Hb; simpl; auto.
  - pose proof (exclusive_route msg b Hb) as H1.
    destruct (Mailbox.route msg b) as [b1 o1]. specialize (IH b1 H1).
    destruct (Mailbox.dispatch msg ls b1). exact IH.
  - specialize (IH b Hb). destruct (Mailbox.dispatch msg ls b). exact IH.
Qed.

(** *** [fresh] is kept by every operation *)

Lemma fresh_empty : fresh (@Mailbox.empty I).
Proof. repeat split; simpl; try tauto. constructor. Qed.

Lemma fresh_clear b : fresh b -> fresh (Mailbox.clear b).
Proof.
  intros (Hp & Ht & Hn). repeat split; simpl; try tauto; auto. constructor.
Qed.

Lemma fresh_receive now t b : fresh b -> fresh (fst (@Mailbox.receive I O now t b)).
Proof.
  intros (Hp & Ht & Hn). unfold Mailbox.receive.
  destruct (Mailbox.messageQueue b) as [|m q]; simpl.
  - repeat split; simpl.
    + intros r Hr. apply in_app_iff in Hr as [Hr|[<-|[]]]; [apply Hp in Hr|]; lia.
    + intros r d Hr. destruct t.
      * apply in_app_iff in Hr as [Hr|[[= <- _]|[]]]; [apply Ht in Hr|]; lia.
      * apply Ht in Hr. lia.
    + apply NoDup_app; auto.
      * constructor; [tauto|constructor].
      * intros x Hx [<-|[]]. apply Hp in Hx. lia.
  - repeat split; simpl; auto.
    + intros r Hr. apply Hp in Hr. lia.
    + intros r d Hr. apply Ht in Hr. lia.
Qed.

Lemma fresh_poll b : fresh b -> fresh (fst (@Mailbox.poll I O b)).
Proof.
  intros Hb. unfold Mailbox.poll. destruct (Mailbox.messageQueue b); auto.
Qed.

Lemma fresh_route msg b : fresh b -> fresh (fst (@Mailbox.route I O msg b)).
Proof.
  intros (Hp & Ht & Hn). unfold Mailbox.route.
  destruct (Mailbox.pendingReceivers b) as [|r rest] eqn:Hpr; simpl.
  - repeat split; simpl; auto; tauto.
  - repeat split; simpl.
    + intros x Hx. apply Hp. now right.
    + intros x d Hx. apply clearTimeout_subset in Hx. eauto.
    + now inversion Hn.
Qed.

Lemma fresh_timeout now r b : fresh b -> fresh (fst (@Mailbox.timeout I O now r b)).
Proof.
  intros (Hp & Ht & Hn). unfold Mailbox.timeout.
  destruct (Mailbox.due r (Mailbox.timers b)) as [d|]; [|repeat split; auto].
  destruct (d <=? now); [|repeat split; auto].
  repeat split; simpl.
  - intros x Hx. apply splice_subset in Hx. auto.
  - intros x d' Hx. apply clearTimeout_subset in Hx. eauto.
  - now apply splice_NoDup.
Qed.

Lemma fresh_dispatch msg ls b : fresh b -> fresh (fst (@Mailbox.dispatch I O msg ls b)).
Proof.
  revert b. induction ls as [|[|c] ls IH]; intros b Hb; simpl; auto.
  - pose proof (fresh_route msg b Hb) as H1.
    destruct (Mailbox.route msg b) as [b1 o1]. specialize (IH b1 H1).
    destruct (Mailbox.dispatch msg ls b1). exact IH.
  - specialize (IH b Hb). destruct (Mailbox.dispatch msg ls b). exact IH.
Qed.

(** When the only mailbox listener is the first listener, a message is
    routed once and then handed to every handler. *)
Lemma dispatch_handlers msg cs b :
  @Mailbox.dispatch I O msg (map Handler cs) b = (b, map (fun c => Called c msg) cs).
Proof.
  induction cs as [|c cs IH]; simpl; auto. now rewrite IH.
Qed.

Lemma dispatch_route_first msg cs b :
  @Mailbox.dispatch I O msg (Route :: map Handler cs) b =
  (fst (@Mailbox.route I O msg b),
   snd (@Mailbox.route I O msg b) ++ map (fun c => Called c msg) cs).
Proof.
  simpl. destruct (Mailbox.route msg b) as [b1 o1].
  now rewrite dispatch_handlers.
Qed.

End MailboxFacts.

(** ** Invariants of the initiator *)

Section MainFacts.
Context {I O : Type}.
Implicit Types (s : Main.state I) (tr : list (Main.event I O)) (w : handle) (c : sid).

Lemma on_app w (l1 l2 : list (handle * listener)) :
  Main.on w (l1 ++ l2) = Main.on w l1 ++ Main.on w l2.
Proof. unfold Main.on. now rewrite filter_app, map_app. Qed.

Lemma In_on w l (ls : list (handle * listener)) :
  In l (Main.on w ls) <-> In (w, l) ls.
Proof.
  unfold Main.on. rewrite in_map_iff. split.
  - intros ([w' l'] & Hl & Hin). simpl in Hl. subst l'.
    apply filter_In in Hin as [Hin Hw]. simpl in Hw.
    apply Nat.eqb_eq in Hw. now subst.
  - intros Hin. exists (w, l). split; auto.
    apply filter_In. split; auto. simpl. apply Nat.eqb_refl.
Qed.

Lemma on_none w (ls : list (handle * listener)) :
  (forall l, ~ In (w, l) ls) -> Main.on w ls = [].
Proof.
  intros H. destruct (Main.on w ls) as [|l rest] eqn:Ho; auto.
  exfalso. apply (H l). apply In_on. rewrite Ho. now left.
Qed.

Lemma on_remove w l (ls : list (handle * listener)) :
  Main.on w (Main.removeEventListener w l ls) =
  filter (fun x => negb (Main.listener_eqb x l)) (Main.on w ls).
Proof.
  unfold Main.on, Main.removeEventListener.
  induction ls as [|[w' l'] ls IH]; simpl; auto.
  destruct (Nat.eqb_spec w' w) as [->|Hne]; simpl.
  - destruct (Main.listener_eqb l' l); simpl; auto.
    rewrite Nat.eqb_refl. simpl. now rewrite IH.
  - destruct (Nat.eqb_spec w' w); [contradiction|]. exact IH.
Qed.

Lemma filter_handlers c cs :
  filter (fun x => negb (Main.listener_eqb x (Handler c))) (map Handler cs) =
  map Handler (filter (fun d => negb (Nat.eqb d c)) cs).
Proof.
  induction cs as [|d cs IH]; simpl; auto.
  destruct (Nat.eqb d c); simpl; now rewrite IH.
Qed.

Lemma tidy_init : tidy (@Main.init I).
Proof. repeat split; simpl; try tauto; discriminate. Qed.

Lemma tidy_start (data : O) s : tidy s -> tidy (fst (Main.start (I:=I) data s)).
Proof.
  intros H. pose proof H as (Hw & Hc & Hcur). unfold Main.start.
  destruct (Main.worker s) as [w|] eqn:Hws; simpl.
  - exact H.
  - split; [|split]; simpl.
    + intros w l Hin. apply in_app_iff in Hin as [Hin|[[= <- _]|[]]]; [apply Hw in Hin|]; lia.
    + intros w c Hin. apply in_app_iff in Hin as [Hin|[[=]|[]]]. eauto.
    + intros w [= <-]. split; [lia|]. exists []. split; [|constructor].
      rewrite on_app, on_none.
      * unfold Main.on. simpl. now rewrite Nat.eqb_refl.
      * intros l Hin. apply Hw in Hin. lia.
Qed.

Lemma tidy_subscribe s : tidy s -> tidy (fst (@Main.subscribe I O s)).
Proof.
  intros H. pose proof H as (Hw & Hc & Hcur). unfold Main.subscribe.
  destruct (Main.worker s) as [w|] eqn:Hws; simpl.
  - destruct (Hcur w eq_refl) as (Hlt & cs & Hon & Hnd).
    split; [|split]; simpl.
    + intros w' l Hin. apply in_app_iff in Hin as [Hin|[[= <- _]|[]]]; eauto.
    + intros w' c Hin.
      apply in_app_iff in Hin as [Hin|[[= _ <-]|[]]]; [apply Hc in Hin|]; lia.
    + rewrite ?Hws. intros w' [= <-]. split; auto.
      exists (cs ++ [Main.nextHandler s]). split.
      * rewrite on_app, Hon, map_app. unfold Main.on. simpl.
        now rewrite Nat.eqb_refl.
      * apply NoDup_app; auto.
        -- constructor; [tauto|constructor].
        -- intros c Hin [Heq|[]].
           assert (Hl : In (Handler c) (Main.on w (Main.listeners s))).
           { rewrite Hon. right. now apply in_map. }
           apply In_on, Hc in Hl. lia.
  - exact H.
Qed.

Lemma tidy_unsubscribe c s : tidy s -> tidy (fst (@Main.unsubscribe I O c s)).
Proof.
  intros H. pose proof H as (Hw & Hc & Hcur). unfold Main.unsubscribe.
  destruct (Nat.ltb c (Main.nextHandler s)); [|exact H].
  destruct (Main.worker s) as [w|] eqn:Hws; simpl.
  - destruct (Hcur w eq_refl) as (Hlt & cs & Hon & Hnd).
    split; [|split]; simpl.
    + intros w' l Hin. apply filter_In in Hin as [Hin _]. eauto.
    + intros w' c' Hin. apply filter_In in Hin as [Hin _]. eauto.
    + rewrite ?Hws. intros w' [= <-]. split; auto.
      exists (filter (fun d => negb (Nat.eqb d c)) cs). split.
      * rewrite on_remove, Hon. simpl. now rewrite filter_handlers.
      * now apply NoDup_filter.
  - exact H.
Qed.

Lemma tidy_stop s : tidy s -> tidy (fst (@Main.stop I O s)).
Proof.
  intros H. pose proof H as (Hw & Hc & Hcur). unfold Main.stop.
  destruct (Main.worker s) as [w|] eqn:Hws; simpl.
  - split; [|split]; simpl; auto. discriminate.
  - exact H.
Qed.

Lemma sound_init : sound (@Main.init I).
Proof.
  split; [apply exclusive_empty|]. split; [apply fresh_empty|apply tidy_init].
Qed.

Lemma sound_step s (e : Main.event I O) : sound s -> sound (fst (Main.step s e)).
Proof.
  intros (Hx & Hf & Ht). destruct e; simpl.
  - split; [|split]; [| |now apply tidy_start];
      unfold Main.start; destruct (Main.worker s); auto.
  - unfold Main.send. destruct (Main.worker s); exact (conj Hx (conj Hf Ht)).
  - unfold Main.receive.
    pose proof (exclusive_receive (O:=O) (Main.now s) timeoutMs _ Hx).
    pose proof (fresh_receive (O:=O) (Main.now s) timeoutMs _ Hf).
    destruct (Mailbox.receive _ _ _); simpl in *. exact (conj H (conj H0 Ht)).
  - unfold Main.poll.
    pose proof (exclusive_poll (O:=O) _ Hx). pose proof (fresh_poll (O:=O) _ Hf).
    destruct (Mailbox.poll _); simpl in *. exact (conj H (conj H0 Ht)).
  - split; [|split]; [| |now apply tidy_subscribe];
      unfold Main.subscribe; destruct (Main.worker s); auto.
  - split; [|split]; [| |now apply tidy_unsubscribe];
      unfold Main.unsubscribe; destruct (Nat.ltb _ _); auto;
      destruct (Main.worker s); auto.
  - split; [|split]; [| |now apply tidy_stop];
      unfold Main.stop; destruct (Main.worker s); simpl; auto.
    + apply exclusive_clear.
    + now apply fresh_clear.
  - unfold Main.message. destruct (Main.worker s) as [w'|]; [|exact (conj Hx (conj Hf Ht))].
    destruct (Nat.eqb w' w); [|exact (conj Hx (conj Hf Ht))].
    pose proof (exclusive_dispatch (O:=O) msg (Main.on w (Main.listeners s)) _ Hx).
    pose proof (fresh_dispatch (O:=O) msg (Main.on w (Main.listeners s)) _ Hf).
    destruct (Mailbox.dispatch _ _ _); simpl in *. exact (conj H (conj H0 Ht)).
  - unfold Main.timeout.
    pose proof (exclusive_timeout (O:=O) (Main.now s) r _ Hx).
    pose proof (fresh_timeout (O:=O) (Main.now s) r _ Hf).
    destruct (Mailbox.timeout _ _ _); simpl in *. exact (conj H (conj H0 Ht)).
  - exact (conj Hx (conj Hf Ht)).
Qed.

Lemma sound_run s tr : sound s -> sound (fst (Main.run s tr)).
Proof.
  revert s. induction tr as [|e tr IH]; intros s Hs; simpl; auto.
  pose proof (sound_step s e Hs) as H1.
  destruct (Main.step s e) as [s1 o1]. specialize (IH s1 H1).
  destruct (Main.run s1 tr). exact IH.
Qed.

End MainFacts.

(** ** Outputs of the mailbox operations *)

Section OutputFacts.
Context {I O : Type}.
Implicit Types (b : Mailbox.t I) (msg : I) (r : rid) (o : list (output I O)).

Lemma resolutions_app r o1 o2 :
  resolutions r (o1 ++ o2) = resolutions r o1 ++ resolutions r o2.
Proof.
  induction o1 as [|x o1 IH]; simpl; auto.
  destruct x; auto. destruct (Nat.eqb r0 r); simpl; now rewrite IH.
Qed.

Lemma delivered_app o1 o2 : delivered (o1 ++ o2) = delivered o1 ++ delivered o2.
Proof.
  induction o1 as [|x o1 IH]; simpl; auto.
  destruct x as [? [?|]|[?|]| | | | | | | |]; simpl; now rewrite ?IH.
Qed.

Lemma calls_app c o1 o2 : calls c (o1 ++ o2) = calls c o1 ++ calls c o2.
Proof.
  induction o1 as [|x o1 IH]; simpl; auto.
  destruct x; auto. destruct (Nat.eqb c0 c); simpl; now rewrite IH.
Qed.

Lemma invocations_app o1 o2 :
  invocations (o1 ++ o2) = invocations o1 ++ invocations o2.
Proof.
  induction o1 as [|x o1 IH]; simpl; auto.
  destruct x; simpl; now rewrite ?IH.
Qed.

(** The callbacks of handlers deliver nothing to receive() or poll() and
    resolve no promise. *)
Lemma delivered_called msg cs :
  delivered (map (fun c => @Called I O c msg) cs) = [].
Proof. induction cs; simpl; auto. Qed.

Lemma resolutions_called r msg cs :
  resolutions r (map (fun c => @Called I O c msg) cs) = [].
Proof. induction cs; simpl; auto. Qed.


(** *** Nothing is lost and nothing is handed out twice *)

Lemma receive_conserves now t b :
  Mailbox.messageQueue b =
  delivered (snd (@Mailbox.receive I O now t b)) ++
  Mailbox.messageQueue (fst (@Mailbox.receive I O now t b)).
Proof. unfold Mailbox.receive. destruct (Mailbox.messageQueue b); reflexivity. Qed.

Lemma poll_conserves b :
  Mailbox.messageQueue b =
  delivered (snd (@Mailbox.poll I O b)) ++ Mailbox.messageQueue (fst (@Mailbox.poll I O b)).
Proof.
  unfold Mailbox.poll. destruct (Mailbox.messageQueue b) eqn:Hq; simpl; auto.
Qed.

Lemma timeout_conserves now r b :
  Mailbox.messageQueue b =
  delivered (snd (@Mailbox.timeout I O now r b)) ++
  Mailbox.messageQueue (fst (@Mailbox.timeout I O now r b)).
Proof.
  unfold Mailbox.timeout. destruct (Mailbox.due r (Mailbox.timers b)) as [d|]; auto.
  destruct (d <=? now); auto.
Qed.

Lemma route_conserves msg b :
  exclusive b ->
  Mailbox.messageQueue b ++ [msg] =
  delivered (snd (@Mailbox.route I O msg b)) ++
  Mailbox.messageQueue (fst (@Mailbox.route I O msg b)).
Proof.
  unfold Mailbox.route. intros [Hq|Hp].
  - rewrite Hq. destruct (Mailbox.pendingReceivers b); reflexivity.
  - rewrite Hp. reflexivity.
Qed.

(** *** A receive call that is over is never resolved again *)

Lemma settled_receive r now t b :
  settled r b ->
  settled r (fst (@Mailbox.receive I O now t b)) /\
  resolutions r (snd (@Mailbox.receive I O now t b)) = [].
Proof.
  intros (Hp & Ht & Hn). unfold Mailbox.receive, settled.
  destruct (Mailbox.messageQueue b) as [|m q]; simpl.
  - repeat split; auto; try lia.
    + intros Hin. apply in_app_iff in Hin as [Hin|[Heq|[]]]; [tauto|lia].
    + intros d Hin. destruct t; [|now apply Ht in Hin].
      apply in_app_iff in Hin as [Hin|[[= Heq _]|[]]]; [now apply Ht in Hin|lia].
  - destruct (Nat.eqb_spec (Mailbox.nextReceiver b) r); [lia|].
    repeat split; auto; lia.
Qed.

Lemma settled_poll r b :
  settled r b ->
  settled r (fst (@Mailbox.poll I O b)) /\ resolutions r (snd (@Mailbox.poll I O b)) = [].
Proof.
  intros H. unfold Mailbox.poll. destruct (Mailbox.messageQueue b); simpl; auto.
Qed.

Lemma settled_route r msg b :
  settled r b ->
  settled r (fst (@Mailbox.route I O msg b)) /\
  resolutions r (snd (@Mailbox.route I O msg b)) = [].
Proof.
  intros (Hp & Ht & Hn). unfold Mailbox.route, settled.
  destruct (Mailbox.pendingReceivers b) as [|r' rest]; simpl.
  - repeat split; auto.
  - destruct (Nat.eqb_spec r' r) as [->|Hne]; [exfalso; apply Hp; now left|].
    repeat split; auto.
    + intros Hin. apply Hp. now right.
    + intros d Hin. apply clearTimeout_subset in Hin. now apply Ht in Hin.
Qed.

Lemma settled_timeout r now r' b :
  settled r b ->
  settled r (fst (@Mailbox.timeout I O now r' b)) /\
  resolutions r (snd (@Mailbox.timeout I O now r' b)) = [].
Proof.
  intros (Hp & Ht & Hn). unfold Mailbox.timeout.
  destruct (Mailbox.due r' (Mailbox.timers b)) as [d|] eqn:Hd;
    [|split; [split|]; auto].
  destruct (d <=? now); [|split; [split|]; auto].
  apply due_In in Hd. simpl.
  destruct (Nat.eqb_spec r' r) as [->|Hne]; [now apply Ht in Hd|].
  split; auto. split; [|split]; simpl; auto.
  - intros Hin. apply splice_subset in Hin. auto.
  - intros d' Hin. apply clearTimeout_subset in Hin. now apply Ht in Hin.
Qed.

Lemma settled_clear r b : settled r b -> settled r (Mailbox.clear b).
Proof. intros (Hp & Ht & Hn). split; [|split]; simpl; auto. Qed.

Lemma settled_dispatch r msg cs b :
  settled r b ->
  settled r (fst (@Mailbox.dispatch I O msg (Route :: map Handler cs) b)) /\
  resolutions r (snd (@Mailbox.dispatch I O msg (Route :: map Handler cs) b)) = [].
Proof.
  intros H. rewrite dispatch_route_first. simpl.
  destruct (settled_route r msg b H) as [H1 H2].
  split; auto. now rewrite resolutions_app, H2, resolutions_called.
Qed.

Lemma dispatch_conserves msg cs b :
  exclusive b ->
  Mailbox.messageQueue b ++ [msg] =
  delivered (snd (@Mailbox.dispatch I O msg (Route :: map Handler cs) b)) ++
  Mailbox.messageQueue (fst (@Mailbox.dispatch I O msg (Route :: map Handler cs) b)).
Proof.
  intros H. rewrite dispatch_route_first. simpl.
  rewrite delivered_app, delivered_called, app_nil_r.
  now apply route_conserves.
Qed.

End OutputFacts.

(** ** Invariants of the worker side *)

Section WorkerFacts.
Context {I O : Type}.
Implicit Types (s : WorkerSide.state I) (tr : list (WorkerSide.event I O))
  (o : list (output I O)).

Lemma worker_run_cons s (e : WorkerSide.event I O) tr :
  WorkerSide.run s (e :: tr) =
  (fst (WorkerSide.run (fst (WorkerSide.step s e)) tr),
   snd (WorkerSide.step s e) ++ snd (WorkerSide.run (fst (WorkerSide.step s e)) tr)).
Proof.
  simpl. destruct (WorkerSide.step s e) as [s1 o1]; simpl.
  destruct (WorkerSide.run s1 tr); reflexivity.
Qed.

(** The continuation only invokes [workerFn]. *)
Lemma resolutions_continuation r o :
  resolutions r (WorkerSide.continuation o) = [].
Proof.
  unfold WorkerSide.continuation. induction o as [|x o IH]; simpl; auto.
  destruct x; simpl; auto. destruct (Nat.eqb r0 (@WorkerSide.bootReceiver I)); simpl; auto.
Qed.

Lemma delivered_continuation o : delivered (WorkerSide.continuation o) = [].
Proof.
  unfold WorkerSide.continuation. induction o as [|x o IH]; simpl; auto.
  destruct x; simpl; auto. destruct (Nat.eqb r (@WorkerSide.bootReceiver I)); simpl; auto.
Qed.

(** When the output does not resolve the first receive(), [workerFn] is
    not invoked. *)
Lemma continuation_none o :
  resolutions (@WorkerSide.bootReceiver I) o = [] ->
  WorkerSide.continuation o = [] /\ existsb WorkerSide.resolves_boot o = false.
Proof.
  unfold WorkerSide.continuation. induction o as [|x o IH]; simpl; auto.
  destruct x; simpl; auto.
  destruct (Nat.eqb r (@WorkerSide.bootReceiver I)); simpl; [discriminate|auto].
Qed.

Lemma box_settle s (p : Mailbox.t I * list (output I O)) :
  WorkerSide.box (fst (WorkerSide.settle s p)) = fst p /\
  WorkerSide.listeners (fst (WorkerSide.settle s p)) = WorkerSide.listeners s /\
  snd (WorkerSide.settle s p) = snd p ++ WorkerSide.continuation (snd p).
Proof. destruct p as [b o]. repeat split. Qed.

Lemma wsound_bootstrap : wsound (fst (@WorkerSide.workerBootstrap I O)).
Proof.
  split; [now left|]. split; [|now exists []].
  apply (fresh_receive (O:=O) 0 None Mailbox.empty fresh_empty).
Qed.

Lemma wsound_step s (e : WorkerSide.event I O) :
  wsound s -> wsound (fst (WorkerSide.step s e)).
Proof.
  intros H. pose proof H as (Hx & Hf & cs & Hl).
  destruct e; simpl; unfold WorkerSide.user;
    try match goal with
        | |- context [if WorkerSide.started s then _ else _] =>
            destruct (WorkerSide.started s)
        end;
    try exact H.
  - unfold WorkerSide.message.
    destruct (box_settle s (Mailbox.dispatch msg (WorkerSide.listeners s) (WorkerSide.box s)))
      as (Hb & Hls & _).
    unfold wsound, wtidy. rewrite Hb, Hls.
    split; [now apply exclusive_dispatch|]. split; [now apply fresh_dispatch|eauto].
  - unfold WorkerSide.timeout.
    destruct (box_settle s (Mailbox.timeout (WorkerSide.now s) r (WorkerSide.box s)))
      as (Hb & Hls & _).
    unfold wsound, wtidy. rewrite Hb, Hls.
    split; [now apply exclusive_timeout|]. split; [now apply fresh_timeout|eauto].
  - unfold WorkerSide.receive.
    pose proof (exclusive_receive (O:=O) (WorkerSide.now s) timeoutMs _ Hx).
    pose proof (fresh_receive (O:=O) (WorkerSide.now s) timeoutMs _ Hf).
    destruct (Mailbox.receive _ _ _); simpl in *. split; [|split]; eauto. now exists cs.
  - unfold WorkerSide.poll.
    pose proof (exclusive_poll (O:=O) _ Hx). pose proof (fresh_poll (O:=O) _ Hf).
    destruct (Mailbox.poll _); simpl in *. split; [|split]; eauto. now exists cs.
  - split; [|split]; auto. exists (cs ++ [WorkerSide.nextHandler s]). simpl.
    rewrite Hl, map_app. reflexivity.
  - destruct (Nat.ltb c (WorkerSide.nextHandler s)); [|exact H].
    split; [|split]; auto.
    exists (filter (fun d => negb (Nat.eqb d c)) cs). simpl. rewrite Hl. simpl.
    f_equal. clear. induction cs as [|d cs IH]; simpl; auto.
    destruct (Nat.eqb d c); simpl; now rewrite IH.
Qed.

Lemma wsound_run s tr : wsound s -> wsound (fst (WorkerSide.run s tr)).
Proof.
  revert s. induction tr as [|e tr IH]; intros s Hs; simpl; auto.
  pose proof (wsound_step s e Hs) as H1.
  destruct (WorkerSide.step s e) as [s1 o1]. specialize (IH s1 H1).
  destruct (WorkerSide.run s1 tr). exact IH.
Qed.

End WorkerFacts.

(** ** The queue and the pending list (C2) *)
Section Routing.
Context {I O : Type}.

(** On the Worker in use a message event runs the mailbox listener once
    and then the handlers. *)
Lemma message_routes (s : Main.state I) w (msg : I) :
  sound s -> Main.worker s = Some w ->
  exists cs,
    Main.on w (Main.listeners s) = Route :: map Handler cs /\ NoDup cs /\
    Main.message (O:=O) w msg s =
    (Main.with_box s (fst (@Mailbox.route I O msg (Main.box s))),
     snd (@Mailbox.route I O msg (Main.box s)) ++ map (fun c => Called c msg) cs).
Proof.
  intros (_ & _ & _ & _ & Hcur) Hw.
  destruct (Hcur w Hw) as (_ & cs & Hon & Hnd).
  exists cs. split; auto. split; auto.
  unfold Main.message. rewrite Hw, Nat.eqb_refl, Hon, dispatch_route_first.
  reflexivity.
Qed.

Lemma worker_message_routes (s : WorkerSide.state I) (msg : I) :
  wsound s ->
  exists cs,
    WorkerSide.listeners s = Route :: map Handler cs /\
    WorkerSide.box (fst (WorkerSide.message (O:=O) msg s)) =
      fst (@Mailbox.route I O msg (WorkerSide.box s)) /\
    snd (WorkerSide.message (O:=O) msg s) =
      (snd (@Mailbox.route I O msg (WorkerSide.box s)) ++ map (fun c => Called c msg) cs) ++
      WorkerSide.continuation
        (snd (@Mailbox.route I O msg (WorkerSide.box s)) ++ map (fun c => Called c msg) cs).
Proof.
  intros (_ & _ & cs & Hl). exists cs. split; auto.
  unfold WorkerSide.message.
  destruct (box_settle s (Mailbox.dispatch (O:=O) msg (WorkerSide.listeners s) (WorkerSide.box s)))
    as (Hb & _ & Ho).
  rewrite Hb, Ho, Hl, dispatch_route_first. auto.
Qed.

(** What [route] does, read off the state. *)
Lemma route_cases (msg : I) (b : Mailbox.t I) :
  exclusive b ->
  match Mailbox.pendingReceivers b with
  | r :: rest =>
      snd (@Mailbox.route I O msg b) = [Resolved r (Some msg)] /\
      Mailbox.pendingReceivers (fst (@Mailbox.route I O msg b)) = rest /\
      Mailbox.messageQueue (fst (@Mailbox.route I O msg b)) = []
  | [] =>
      snd (@Mailbox.route I O msg b) = [] /\
      Mailbox.pendingReceivers (fst (@Mailbox.route I O msg b)) = [] /\
      Mailbox.messageQueue (fst (@Mailbox.route I O msg b)) =
        Mailbox.messageQueue b ++ [msg]
  end.
Proof.
  intros Hx. unfold Mailbox.route.
  destruct (Mailbox.pendingReceivers b) as [|r rest] eqn:Hp; simpl; auto.
  destruct Hx as [Hq|Hp']; [auto|congruence].
Qed.

Lemma receive_cases now t (b : Mailbox.t I) :
  exclusive b ->
  match Mailbox.messageQueue b with
  | m :: q =>
      snd (@Mailbox.receive I O now t b) = [Resolved (Mailbox.nextReceiver b) (Some m)] /\
      Mailbox.messageQueue (fst (@Mailbox.receive I O now t b)) = q /\
      Mailbox.pendingReceivers (fst (@Mailbox.receive I O now t b)) = []
  | [] =>
      snd (@Mailbox.receive I O now t b) = [] /\
      Mailbox.messageQueue (fst (@Mailbox.receive I O now t b)) = [] /\
      Mailbox.pendingReceivers (fst (@Mailbox.receive I O now t b)) =
        Mailbox.pendingReceivers b ++ [Mailbox.nextReceiver b]
  end.
Proof.
  intros Hx. unfold Mailbox.receive.
  destruct (Mailbox.messageQueue b) as [|m q] eqn:Hq; simpl; auto.
  destruct Hx as [Hq'|Hp]; [congruence|auto].
Qed.

End Routing.

(** C2: in every state the initiator or the worker side reaches, whatever
    the order of message events, receive() and poll() calls and timers
    firing (and of every other call), the queue or the pending list is
    empty.  A message event hands the message to the oldest pending
    resolver when there is one and appends it to the queue otherwise; a
    receive() call takes the oldest queued message when there is one and
    pushes its resolver otherwise. *)
Theorem queue_or_pending_empty {I O : Type} :
  (forall tr : list (Main.event I O),
     exclusive (Main.box (fst (Main.run Main.init tr)))) /\
  (forall tr : list (WorkerSide.event I O),
     exclusive (WorkerSide.box (fst (WorkerSide.run (fst (@WorkerSide.workerBootstrap I O)) tr)))) /\
  (forall (tr : list (Main.event I O)) (w : handle) (msg : I),
     let s := fst (Main.run Main.init tr) in
     let s' := fst (Main.message (O:=O) w msg s) in
     let out := snd (Main.message (O:=O) w msg s) in
     Main.worker s = Some w ->
     match Mailbox.pendingReceivers (Main.box s) with
     | r :: rest =>
         resolutions r out = [Some msg] /\ delivered out = [msg] /\
         Mailbox.pendingReceivers (Main.box s') = rest /\
         Mailbox.messageQueue (Main.box s') = []
     | [] =>
         delivered out = [] /\
         Mailbox.pendingReceivers (Main.box s') = [] /\
         Mailbox.messageQueue (Main.box s') = Mailbox.messageQueue (Main.box s) ++ [msg]
     end) /\
  (forall (tr : list (Main.event I O)) (t : option Z),
     let s := fst (Main.run Main.init tr) in
     let s' := fst (Main.receive (O:=O) t s) in
     let out := snd (Main.receive (O:=O) t s) in
     match Mailbox.messageQueue (Main.box s) with
     | m :: q =>
         out = [Resolved (Mailbox.nextReceiver (Main.box s)) (Some m)] /\
         Mailbox.messageQueue (Main.box s') = q /\
         Mailbox.pendingReceivers (Main.box s') = []
     | [] =>
         out = [] /\
         Mailbox.messageQueue (Main.box s') = [] /\
         Mailbox.pendingReceivers (Main.box s') =
           Mailbox.pendingReceivers (Main.box s) ++ [Mailbox.nextReceiver (Main.box s)]
     end) /\
  (forall (tr : list (WorkerSide.event I O)) (msg : I),
     let s := fst (WorkerSide.run (fst (@WorkerSide.workerBootstrap I O)) tr) in
     let s' := fst (WorkerSide.message (O:=O) msg s) in
     let out := snd (WorkerSide.message (O:=O) msg s) in
     match Mailbox.pendingReceivers (WorkerSide.box s) with
     | r :: rest =>
         resolutions r out = [Some msg] /\ delivered out = [msg] /\
         Mailbox.pendingReceivers (WorkerSide.box s') = rest /\
         Mailbox.messageQueue (WorkerSide.box s') = []
     | [] =>
         delivered out = [] /\
         Mailbox.pendingReceivers (WorkerSide.box s') = [] /\
         Mailbox.messageQueue (WorkerSide.box s') =
           Mailbox.messageQueue (WorkerSide.box s) ++ [msg]
     end) /\
  (forall (tr : list (WorkerSide.event I O)) (t : option Z),
     let s := fst (WorkerSide.run (fst (@WorkerSide.workerBootstrap I O)) tr) in
     let s' := fst (WorkerSide.receive (O:=O) t s) in
     let out := snd (WorkerSide.receive (O:=O) t s) in
     match Mailbox.messageQueue (WorkerSide.box s) with
     | m :: q =>
         out = [Resolved (Mailbox.nextReceiver (WorkerSide.box s)) (Some m)] /\
         Mailbox.messageQueue (WorkerSide.box s') = q /\
         Mailbox.pendingReceivers (WorkerSide.box s') = []
     | [] =>
         out = [] /\
         Mailbox.messageQueue (WorkerSide.box s') = [] /\
         Mailbox.pendingReceivers (WorkerSide.box s') =
           Mailbox.pendingReceivers (WorkerSide.box s) ++
           [Mailbox.nextReceiver (WorkerSide.box s)]
     end).
Proof.
  assert (Hmain : forall tr : list (Main.event I O), sound (fst (Main.run Main.init tr))).
  { intros tr. apply sound_run, sound_init. }
  assert (Hwork : forall tr : list (WorkerSide.event I O),
             wsound (fst (WorkerSide.run (fst (@WorkerSide.workerBootstrap I O)) tr))).
  { intros tr. apply wsound_run, wsound_bootstrap. }
  split; [intros tr; apply Hmain|]. split; [intros tr; apply Hwork|].
  split; [|split; [|split]].
  - intros tr w msg s s' out Hw.
    destruct (message_routes (O:=O) s w msg (Hmain tr) Hw) as (cs & _ & _ & Hm).
    pose proof (route_cases (O:=O) msg (Main.box s) (proj1 (Hmain tr))) as Hr.
    unfold s', out. rewrite Hm. simpl.
    destruct (Mailbox.pendingReceivers (Main.box s)) as [|r rest];
      destruct Hr as (Ho & Hp & Hq); rewrite Ho; simpl.
    + now rewrite delivered_called.
    + now rewrite Nat.eqb_refl, resolutions_called, delivered_called.
  - intros tr t s s' out.
    pose proof (receive_cases (O:=O) (Main.now s) t (Main.box s) (proj1 (Hmain tr))) as Hr.
    unfold s', out, Main.receive.
    destruct (Mailbox.receive (Main.now s) t (Main.box s)) as [b o]. exact Hr.
  - intros tr msg s s' out.
    destruct (worker_message_routes (O:=O) s msg (Hwork tr)) as (cs & _ & Hb & Ho).
    pose proof (route_cases (O:=O) msg (WorkerSide.box s) (proj1 (Hwork tr))) as Hr.
    unfold s', out. rewrite Hb, Ho.
    rewrite !delivered_app, delivered_continuation, delivered_called, !app_nil_r.
    destruct (Mailbox.pendingReceivers (WorkerSide.box s)) as [|r rest];
      destruct Hr as (Hro & Hp & Hq).
    + rewrite Hro. simpl. auto.
    + rewrite !resolutions_app, resolutions_continuation, resolutions_called, Hro.
      simpl. rewrite Nat.eqb_refl. auto.
  - intros tr t s s' out.
    pose proof (receive_cases (O:=O) (WorkerSide.now s) t (WorkerSide.box s)
                  (proj1 (Hwork tr))) as Hr.
    unfold s', out, WorkerSide.receive.
    destruct (Mailbox.receive (WorkerSide.now s) t (WorkerSide.box s)) as [b o]. exact Hr.
Qed.

(** ** Subscriptions (C8) *)
Section Subscriptions.
Context {I O : Type}.
Implicit Types (s : Main.state I) (tr : list (Main.event I O)) (w : handle) (c : sid).


(** The mailbox operations call no subscriber. *)
Lemma calls_receive c now t (b : Mailbox.t I) :
  calls c (snd (@Mailbox.receive I O now t b)) = [].
Proof. unfold Mailbox.receive. destruct (Mailbox.messageQueue b); reflexivity. Qed.

Lemma calls_poll c (b : Mailbox.t I) : calls c (snd (@Mailbox.poll I O b)) = [].
Proof. unfold Mailbox.poll. destruct (Mailbox.messageQueue b); reflexivity. Qed.

Lemma calls_timeout c now r (b : Mailbox.t I) :
  calls c (snd (@Mailbox.timeout I O now r b)) = [].
Proof.
  unfold Mailbox.timeout. destruct (Mailbox.due r (Mailbox.timers b)) as [d|]; auto.
  destruct (d <=? now); auto.
Qed.

Lemma calls_route c msg (b : Mailbox.t I) :
  calls c (snd (@Mailbox.route I O msg b)) = [].
Proof. unfold Mailbox.route. destruct (Mailbox.pendingReceivers b); reflexivity. Qed.


Lemma arrivals_on_cons w (e : Main.event I O) tr :
  arrivals_on w (e :: tr) = arrivals_on w [e] ++ arrivals_on w tr.
Proof.
  destruct e; simpl; auto. destruct (Nat.eqb w0 w); reflexivity.
Qed.


End Subscriptions.



(** ** Receive calls that are over *)
Section Settled.
Context {I O : Type}.
Implicit Types (s : Main.state I) (tr : list (Main.event I O)) (r : rid).

Lemma settled_listeners r msg (ls : list listener) (b : Mailbox.t I) :
  settled r b ->
  settled r (fst (@Mailbox.dispatch I O msg ls b)) /\
  resolutions r (snd (@Mailbox.dispatch I O msg ls b)) = [].
Proof.
  revert b. induction ls as [|[|c] ls IH]; intros b Hb; simpl; auto.
  - destruct (settled_route (O:=O) r msg b Hb) as [H1 H2].
    destruct (Mailbox.route msg b) as [b1 o1]. simpl in *.
    destruct (IH b1 H1) as [H3 H4].
    destruct (Mailbox.dispatch msg ls b1) as [b2 o2]. simpl in *.
    split; auto. now rewrite resolutions_app, H2, H4.
  - destruct (IH b Hb) as [H3 H4].
    destruct (Mailbox.dispatch msg ls b) as [b2 o2]. simpl in *. auto.
Qed.

Lemma settled_step r s (e : Main.event I O) :
  settled r (Main.box s) ->
  settled r (Main.box (fst (Main.step s e))) /\
  resolutions r (snd (Main.step s e)) = [].
Proof.
  intros H. destruct e; simpl.
  - unfold Main.start. destruct (Main.worker s); auto.
  - unfold Main.send. destruct (Main.worker s); auto.
  - unfold Main.receive.
    pose proof (settled_receive (O:=O) r (Main.now s) timeoutMs _ H).
    destruct (Mailbox.receive _ _ _); auto.
  - unfold Main.poll.
    pose proof (settled_poll (O:=O) r _ H). destruct (Mailbox.poll _); auto.
  - unfold Main.subscribe. destruct (Main.worker s); auto.
  - unfold Main.unsubscribe. destruct (Nat.ltb c (Main.nextHandler s)); auto.
    destruct (Main.worker s); auto.
  - unfold Main.stop. destruct (Main.worker s); auto. simpl.
    split; auto. now apply settled_clear.
  - unfold Main.message. destruct (Main.worker s) as [w'|]; auto.
    destruct (Nat.eqb w' w); auto.
    pose proof (settled_listeners r msg (Main.on w (Main.listeners s)) _ H).
    destruct (Mailbox.dispatch _ _ _); auto.
  - unfold Main.timeout.
    pose proof (settled_timeout (O:=O) r (Main.now s) r0 _ H).
    destruct (Mailbox.timeout _ _ _); auto.
  - auto.
Qed.

Lemma settled_run r s tr :
  settled r (Main.box s) ->
  settled r (Main.box (fst (Main.run s tr))) /\
  resolutions r (snd (Main.run s tr)) = [].
Proof.
  revert s. induction tr as [|e tr IH]; intros s H; [simpl; auto|].
  destruct (settled_step r s e H) as [H1 H2].
  destruct (IH _ H1) as [H3 H4].
  rewrite main_run_cons. cbn [fst snd].
  split; auto. now rewrite resolutions_app, H2, H4.
Qed.

End Settled.

(** ** Pending receivers are served in order (C1) *)
Section Fifo.
Context {I O : Type}.
Implicit Types (s : Main.state I) (tr : list (Main.event I O)) (w : handle).

(** receive() calls on an empty queue register their resolvers, in the
    order of the calls, and resolve nothing. *)
Lemma receives_register (ts : list (option Z)) s :
  Mailbox.messageQueue (Main.box s) = [] ->
  let s1 := fst (Main.run s (map (@Main.Receive I O) ts)) in
  Main.worker s1 = Main.worker s /\
  Mailbox.messageQueue (Main.box s1) = [] /\
  Mailbox.pendingReceivers (Main.box s1) =
    Mailbox.pendingReceivers (Main.box s) ++
    seq (Mailbox.nextReceiver (Main.box s)) (List.length ts) /\
  snd (Main.run s (map (@Main.Receive I O) ts)) = [].
Proof.
  revert s. induction ts as [|t ts IH]; intros s Hq.
  - simpl. now rewrite app_nil_r.
  - cbn [map]. rewrite main_run_cons. cbn [fst snd].
    assert (Hstep : Main.step s (@Main.Receive I O t) =
              (Main.with_box s
                 (Mailbox.mk [] (Mailbox.pendingReceivers (Main.box s) ++
                                 [Mailbox.nextReceiver (Main.box s)])
                    (match t with
                     | Some ms => Mailbox.timers (Main.box s) ++
                                  [(Mailbox.nextReceiver (Main.box s),
                                    Main.now s + Mailbox.delay ms)]
                     | None => Mailbox.timers (Main.box s)
                     end)
                    (S (Mailbox.nextReceiver (Main.box s)))), [])).
    { simpl. unfold Main.receive, Mailbox.receive. now rewrite Hq. }
    rewrite Hstep. cbn [fst snd].
    match goal with
    | |- context [Main.run ?s1 _] => destruct (IH s1 eq_refl) as (Hw & Hq1 & Hp1 & Ho1)
    end.
    split; [exact Hw|]. split; [exact Hq1|]. split; [|exact Ho1].
    rewrite Hp1. simpl. now rewrite <- app_assoc.
Qed.

(** Messages arriving while resolvers [ps] are pending: the k-th message
    resolves the k-th resolver, once. *)
Lemma messages_resolve w (ms : list I) s :
  sound s -> Main.worker s = Some w ->
  (List.length ms <= List.length (Mailbox.pendingReceivers (Main.box s)))%nat ->
  forall k m r,
    nth_error ms k = Some m ->
    nth_error (Mailbox.pendingReceivers (Main.box s)) k = Some r ->
    resolutions r (snd (Main.run s (map (@Main.Message I O w) ms))) = [Some m].
Proof.
  revert s. induction ms as [|m0 ms IH]; intros s Hs Hw Hlen k m r Hm Hr.
  - destruct k; discriminate.
  - cbn [map]. rewrite main_run_cons. cbn [fst snd].
    destruct (message_routes (O:=O) s w m0 Hs Hw) as (cs & _ & _ & Hmsg).
    pose proof (sound_step s (@Main.Message I O w m0) Hs) as Hs1.
    cbn [Main.step] in *. rewrite Hmsg in *. cbn [fst snd] in *.
    destruct Hs as (Hx & (Hp & Ht & Hnd) & _).
    unfold Mailbox.route in *.
    destruct (Mailbox.pendingReceivers (Main.box s)) as [|r0 ps] eqn:Hps;
      [simpl in Hlen; lia|].
    cbn [fst snd] in *. inversion Hnd as [|? ? Hr0 Hnd']; subst.
    rewrite !resolutions_app, resolutions_called, app_nil_r.
    destruct k as [|k]; simpl in Hm, Hr.
    + injection Hm as <-. injection Hr as <-.
      simpl. rewrite Nat.eqb_refl.
      assert (Hset : settled r0
                (Main.box (Main.with_box s
                   (Mailbox.mk (Mailbox.messageQueue (Main.box s)) ps
                      (Mailbox.clearTimeout r0 (Mailbox.timers (Main.box s)))
                      (Mailbox.nextReceiver (Main.box s)))))).
      { split; [|split]; simpl; auto.
        - intros d. apply clearTimeout_removes.
        - apply Hp. now left. }
      destruct (settled_run (O:=O) r0 _ (map (@Main.Message I O w) ms) Hset) as [_ ->].
      reflexivity.
    + assert (Hne : r0 <> r).
      { intros ->. apply Hr0. eapply nth_error_In; eauto. }
      simpl. destruct (Nat.eqb_spec r0 r); [contradiction|]. simpl.
      apply (IH _ Hs1 Hw) with (k := k); simpl in *; auto. lia.
Qed.

Lemma nth_error_seq_lt n len k :
  (k < len)%nat -> nth_error (seq n len) k = Some (n + k)%nat.
Proof.
  revert n k. induction len as [|len IH]; intros n k Hk; [lia|].
  destruct k as [|k]; simpl.
  - f_equal. lia.
  - rewrite IH by lia. f_equal. lia.
Qed.

End Fifo.

(** C1: N receive() calls made while the queue and the pending list are
    empty register their resolvers in the order of the calls and stay
    pending; when N messages then arrive from the Worker, the k-th call
    (the one with identity [n + k], [n] the identity of the first) is
    resolved once, with the k-th message. *)
Theorem receivers_served_in_order {I O : Type} (tr0 : list (Main.event I O))
    (w : handle) (ts : list (option Z)) (ms : list I) :
  let s := fst (Main.run Main.init tr0) in
  let n := Mailbox.nextReceiver (Main.box s) in
  let receives := map (@Main.Receive I O) ts in
  let arrivals := map (@Main.Message I O w) ms in
  Main.worker s = Some w ->
  Mailbox.messageQueue (Main.box s) = [] ->
  Mailbox.pendingReceivers (Main.box s) = [] ->
  List.length ts = List.length ms ->
  Mailbox.pendingReceivers (Main.box (fst (Main.run s receives))) = seq n (List.length ts) /\
  snd (Main.run s receives) = [] /\
  forall k m, nth_error ms k = Some m ->
              resolutions (n + k)%nat (snd (Main.run s (receives ++ arrivals))) = [Some m].
Proof.
  intros s n receives arrivals Hw Hq Hp Hlen.
  destruct (receives_register (O:=O) ts s Hq) as (Hw1 & Hq1 & Hp1 & Ho1).
  fold receives in Hw1, Hq1, Hp1, Ho1. rewrite Hp in Hp1. simpl in Hp1. fold n in Hp1.
  split; [exact Hp1|]. split; [exact Ho1|].
  intros k m Hm.
  rewrite main_run_app. cbn [snd]. rewrite Ho1. simpl.
  assert (Hk : (k < List.length ts)%nat).
  { rewrite Hlen. apply nth_error_Some. congruence. }
  apply (messages_resolve (O:=O) w ms) with (k := k); auto.
  - apply sound_run, sound_run, sound_init.
  - now rewrite Hw1.
  - rewrite Hp1, length_seq. lia.
  - rewrite Hp1. now apply nth_error_seq_lt.
Qed.

Lemma receivers_served_in_order_witness :
  let tr0 := [@Main.Start nat nat 7%nat] in
  let s := fst (Main.run Main.init tr0) in
  Main.worker s = Some 0%nat /\
  Mailbox.messageQueue (Main.box s) = [] /\
  Mailbox.pendingReceivers (Main.box s) = [] /\
  List.length [None; Some 50; None] = List.length [10%nat; 11%nat; 12%nat] /\
  resolutions 1%nat
    (snd (Main.run s (map (@Main.Receive nat nat) [None; Some 50; None] ++
                      map (@Main.Message nat nat 0%nat) [10%nat; 11%nat; 12%nat]))) =
  [Some 11%nat].
Proof.
  split; [reflexivity|]. split; [reflexivity|]. split; [reflexivity|].
  split; [reflexivity|].
  exact (proj2 (proj2
    (receivers_served_in_order [@Main.Start nat nat 7%nat] 0%nat
       [None; Some 50; None] [10%nat; 11%nat; 12%nat]
       eq_refl eq_refl eq_refl eq_refl)) 1%nat 11%nat eq_refl).
Defined.

(** ** A receive() that times out (C7) *)
Section Timeouts.
Context {I O : Type}.
Implicit Types (s : Main.state I) (tr : list (Main.event I O)) (r : rid).

Lemma due_app_old r (ts ts' : list (rid * Z)) d :
  Mailbox.due r ts = Some d -> Mailbox.due r (ts ++ ts') = Some d.
Proof.
  unfold Mailbox.due. induction ts as [|[r' d'] ts IH]; simpl; [discriminate|].
  destruct (Nat.eqb r' r); auto.
Qed.

Lemma due_app_new r (ts : list (rid * Z)) d :
  (forall d', ~ In (r, d') ts) -> Mailbox.due r (ts ++ [(r, d)]) = Some d.
Proof.
  unfold Mailbox.due. induction ts as [|[r' d'] ts IH]; simpl; intros H.
  - now rewrite Nat.eqb_refl.
  - destruct (Nat.eqb_spec r' r) as [->|Hne].
    + exfalso. apply (H d'). now left.
    + apply IH. intros d0 Hin. apply (H d0). now right.
Qed.

Lemma due_clearTimeout_other r r' (ts : list (rid * Z)) :
  r <> r' -> Mailbox.due r (Mailbox.clearTimeout r' ts) = Mailbox.due r ts.
Proof.
  intros Hne. unfold Mailbox.due, Mailbox.clearTimeout.
  induction ts as [|[r0 d0] ts IH]; simpl; auto.
  destruct (Nat.eqb_spec r0 r') as [->|Hne']; simpl.
  - destruct (Nat.eqb_spec r' r); [congruence|]. exact IH.
  - destruct (Nat.eqb r0 r); auto.
Qed.

(** While no message arrives and the timer has not fired, the timer stays
    set and the promise stays pending. *)
Lemma armed_step r d s (e : Main.event I O) :
  armed r d s -> is_message e = false -> is_timeout_of r e = false ->
  armed r d (fst (Main.step s e)) /\ resolutions r (snd (Main.step s e)) = [].
Proof.
  intros [Hd Hlt] Hm Ht. unfold armed.
  destruct e; try discriminate Hm; simpl.
  - unfold Main.start. destruct (Main.worker s); auto.
  - unfold Main.send. destruct (Main.worker s); auto.
  - unfold Main.receive, Mailbox.receive.
    destruct (Mailbox.messageQueue (Main.box s)); simpl.
    + split; auto. split; [|lia].
      destruct timeoutMs; auto. now apply due_app_old.
    + destruct (Nat.eqb_spec (Mailbox.nextReceiver (Main.box s)) r); [lia|].
      repeat split; auto.
  - unfold Main.poll, Mailbox.poll.
    destruct (Mailbox.messageQueue (Main.box s)); simpl; auto.
  - unfold Main.subscribe. destruct (Main.worker s); auto.
  - unfold Main.unsubscribe. destruct (Nat.ltb c (Main.nextHandler s)); auto.
    destruct (Main.worker s); auto.
  - unfold Main.stop. destruct (Main.worker s); auto.
  - simpl in Ht. apply Nat.eqb_neq in Ht.
    unfold Main.timeout, Mailbox.timeout.
    destruct (Mailbox.due r0 (Mailbox.timers (Main.box s))) as [d0|]; simpl; auto.
    destruct (d0 <=? Main.now s); simpl; auto.
    destruct (Nat.eqb_spec r0 r); [congruence|].
    rewrite due_clearTimeout_other by congruence. auto.
  - auto.
Qed.

Lemma armed_run r d s tr :
  armed r d s -> without is_message tr = true -> without (is_timeout_of r) tr = true ->
  armed r d (fst (Main.run s tr)) /\ resolutions r (snd (Main.run s tr)) = [].
Proof.
  revert s. induction tr as [|e tr IH]; intros s Ha Hm Ht; [simpl; auto|].
  rewrite without_cons in Hm, Ht.
  apply andb_true_iff in Hm as [He1 Hm], Ht as [He2 Ht].
  apply negb_true_iff in He1, He2.
  destruct (armed_step r d s e Ha He1 He2) as [Ha1 Hr1].
  destruct (IH _ Ha1 Hm Ht) as [Ha2 Hr2].
  rewrite main_run_cons. cbn [fst snd].
  split; auto. now rewrite resolutions_app, Hr1, Hr2.
Qed.

(** receive(timeoutMs) on an empty queue sets the timer. *)
Lemma receive_arms (t : Z) s :
  sound s -> Mailbox.messageQueue (Main.box s) = [] ->
  snd (Main.receive (O:=O) (Some t) s) = [] /\
  armed (Mailbox.nextReceiver (Main.box s)) (Main.now s + Mailbox.delay t)
        (fst (Main.receive (O:=O) (Some t) s)).
Proof.
  intros (_ & (_ & Hts & _) & _) Hq.
  unfold Main.receive, Mailbox.receive, armed. rewrite Hq. simpl.
  split; auto. split; [|lia].
  apply due_app_new. intros d' Hin. apply Hts in Hin. lia.
Qed.

(** The timer callback: nothing before the due time; at the due time or
    later the promise is resolved with undefined and the call is over. *)
Lemma timeout_fires r d s :
  sound s -> armed r d s ->
  (Main.now s < d -> snd (Main.timeout (O:=O) r s) = []) /\
  (d <= Main.now s ->
   snd (Main.timeout (O:=O) r s) = [Resolved r None] /\
   settled r (Main.box (fst (Main.timeout (O:=O) r s)))).
Proof.
  intros (_ & (_ & _ & Hnd) & _) [Hd Hlt].
  unfold Main.timeout, Mailbox.timeout. rewrite Hd.
  split; intros Hnow.
  - destruct (Z.leb_spec d (Main.now s)); [lia|reflexivity].
  - destruct (Z.leb_spec d (Main.now s)); [|lia]. simpl.
    split; auto. split; [|split]; simpl; auto.
    + now apply splice_removes.
    + intros d'. apply clearTimeout_removes.
Qed.

(** A timeout that fits in 31 bits is the delay of its timer; no timeout
    up to that size gets a shorter delay. *)
Lemma delay_kept (t : Z) : 0 <= t <= 2147483647 -> Mailbox.delay t = t.
Proof.
  intros Ht. unfold Mailbox.delay, Mailbox.toInt32.
  rewrite Z.mod_small by lia. lia.
Qed.

Lemma delay_not_shorter (t : Z) : t <= 2147483647 -> t <= Mailbox.delay t.
Proof.
  intros Ht. destruct (Z.le_gt_cases 0 t).
  - rewrite delay_kept; lia.
  - unfold Mailbox.delay. lia.
Qed.

End Timeouts.

(** C7 (amended): receive(timeoutMs) with [timeoutMs] at most 2147483647,
    called on an empty queue, returns a pending promise.  While no message
    arrives and its timer has not fired the promise stays pending.  The
    timer callback does nothing before [timeoutMs] has passed since the
    call; once due, it resolves the promise with undefined and removes the
    resolver from the pending list, and nothing that happens later, a
    message arriving included, resolves that promise again. *)
Theorem receive_times_out {I O : Type} (tr0 tr tr' : list (Main.event I O)) (t : Z) :
  let s := fst (Main.run Main.init tr0) in
  let r := Mailbox.nextReceiver (Main.box s) in
  let s1 := fst (Main.receive (O:=O) (Some t) s) in
  let s2 := fst (Main.run s1 tr) in
  let s3 := fst (Main.timeout (O:=O) r s2) in
  t <= 2147483647 ->
  Mailbox.messageQueue (Main.box s) = [] ->
  without is_message tr = true ->
  without (is_timeout_of r) tr = true ->
  snd (Main.receive (O:=O) (Some t) s) = [] /\
  resolutions r (snd (Main.run s1 tr)) = [] /\
  (Main.now s2 < Main.now s + t -> snd (Main.timeout (O:=O) r s2) = []) /\
  (Main.now s + Mailbox.delay t <= Main.now s2 ->
   snd (Main.timeout (O:=O) r s2) = [Resolved r None] /\
   ~ In r (Mailbox.pendingReceivers (Main.box s3)) /\
   resolutions r (snd (Main.run s3 tr')) = []) /\
  (0 <= t -> Mailbox.delay t = t).
Proof.
  intros s r s1 s2 s3 Hbound Hq Hm Ht.
  assert (Hs : sound s) by apply sound_run, sound_init.
  destruct (receive_arms (O:=O) t s Hs Hq) as [Ho Ha]. fold r s1 in Ha.
  destruct (armed_run r _ s1 tr Ha Hm Ht) as [Ha2 Hr2]. fold s2 in Ha2.
  assert (Hs2 : sound s2).
  { apply sound_run. apply (sound_step s (@Main.Receive I O (Some t)) Hs). }
  destruct (timeout_fires (O:=O) r _ s2 Hs2 Ha2) as [Hearly Hdue].
  split; [exact Ho|]. split; [exact Hr2|]. split; [|split].
  - intros Hnow. apply Hearly. pose proof (delay_not_shorter t Hbound). lia.
  - intros Hnow. destruct (Hdue Hnow) as [Hout Hset]. fold s3 in Hset.
    split; [exact Hout|]. split; [apply Hset|].
    apply (settled_run (O:=O) r s3 tr' Hset).
  - intros Hpos. apply delay_kept. lia.
Qed.

Lemma receive_times_out_witness :
  let tr0 := [@Main.Start nat nat 7%nat] in
  let tr := [@Main.Tick nat nat 30; Main.Poll; Main.Tick 25] in
  let tr' := [@Main.Message nat nat 0%nat 10%nat; Main.Receive None;
              Main.Message 0%nat 11%nat] in
  let s := fst (Main.run Main.init tr0) in
  let s3 := fst (Main.timeout (O:=nat) 0%nat
                   (fst (Main.run (fst (Main.receive (O:=nat) (Some 50) s)) tr))) in
  50 <= 2147483647 /\
  Mailbox.messageQueue (Main.box s) = [] /\
  without is_message tr = true /\
  without (is_timeout_of 0%nat) tr = true /\
  Main.now s + Mailbox.delay 50 <=
    Main.now (fst (Main.run (fst (Main.receive (O:=nat) (Some 50) s)) tr)) /\
  resolutions 0%nat (snd (Main.run s3 tr')) = [].
Proof.
  split; [vm_compute; discriminate|].
  split; [reflexivity|]. split; [reflexivity|]. split; [reflexivity|].
  split; [vm_compute; discriminate|].
  refine (proj2 (proj2 (proj1 (proj2 (proj2 (proj2
    (receive_times_out [@Main.Start nat nat 7%nat]
       [@Main.Tick nat nat 30; Main.Poll; Main.Tick 25]
       [@Main.Message nat nat 0%nat 10%nat; Main.Receive None; Main.Message 0%nat 11%nat]
       50 _ eq_refl eq_refl eq_refl)))) _))).
  - vm_compute; discriminate.
  - vm_compute; discriminate.
Defined.

(** C7 as stated fails: receive(3000000000) on an empty queue is resolved
    with undefined while 50 ms have passed since the call, not 3000000000:
    setTimeout does not keep a delay above 2147483647 ms. *)
Lemma receive_beyond_int32_times_out_early :
  let s := fst (Main.run (@Main.init nat) [@Main.Start nat nat 7%nat]) in
  let s1 := fst (Main.receive (O:=nat) (Some 3000000000) s) in
  let s2 := fst (Main.run s1 [@Main.Tick nat nat 50]) in
  Mailbox.messageQueue (Main.box s) = [] /\
  Mailbox.pendingReceivers (Main.box s1) = [0%nat] /\
  Main.now s2 = Main.now s + 50 /\
  Main.now s2 < Main.now s + 3000000000 /\
  snd (Main.timeout (O:=nat) 0%nat s2) = [Resolved 0%nat None].
Proof. repeat split. Qed.

(** ** The handshake (C3) *)
Section Handshake.
(* [A] is MainToWorker (and the init data), [B] is WorkerToMain. *)
Context {A B : Type}.
Implicit Types (s : WorkerSide.state A) (tr : list (WorkerSide.event A B)).

Lemma booting_bootstrap :
  booting (fst (@WorkerSide.workerBootstrap A B)) /\ snd (@WorkerSide.workerBootstrap A B) = [].
Proof. repeat split. Qed.

Lemma booting_step s (e : WorkerSide.event A B) :
  booting s -> WorkerSide.arrivals [e] = [] ->
  booting (fst (WorkerSide.step s e)) /\ snd (WorkerSide.step s e) = [].
Proof.
  intros (Hst & Hb & Hl) He. unfold booting.
  destruct e; try discriminate He; simpl; unfold WorkerSide.user; rewrite ?Hst; auto.
  unfold WorkerSide.timeout, Mailbox.timeout. rewrite Hb. simpl.
  rewrite Hst. auto.
Qed.

Lemma booting_message s (msg : A) :
  booting s ->
  serving (fst (WorkerSide.message (O:=B) msg s)) /\
  Mailbox.messageQueue (WorkerSide.box (fst (WorkerSide.message (O:=B) msg s))) = [] /\
  snd (WorkerSide.message (O:=B) msg s) =
    [Resolved (@WorkerSide.bootReceiver A) (Some msg); Invoked (Some msg)].
Proof.
  intros (Hst & Hb & Hl).
  unfold WorkerSide.message. rewrite Hl, Hb. simpl.
  rewrite Hst. repeat split; simpl; auto; try lia.
  - now left.
  - constructor.
  - now exists [].
Qed.

Lemma invocations_dispatch (msg : A) ls (b : Mailbox.t A) :
  invocations (snd (@Mailbox.dispatch A B msg ls b)) = [].
Proof.
  revert b. induction ls as [|[|c] ls IH]; intros b; simpl; auto.
  - unfold Mailbox.route at 1.
    destruct (Mailbox.pendingReceivers b); simpl;
      match goal with
      | |- context [Mailbox.dispatch msg ls ?b1] =>
          specialize (IH b1); destruct (Mailbox.dispatch msg ls b1)
      end; simpl in *; auto.
  - specialize (IH b). destruct (Mailbox.dispatch msg ls b). simpl in *; auto.
Qed.

Lemma serving_step s (e : WorkerSide.event A B) :
  serving s ->
  serving (fst (WorkerSide.step s e)) /\
  invocations (snd (WorkerSide.step s e)) = [] /\
  resolutions (@WorkerSide.bootReceiver A) (snd (WorkerSide.step s e)) = [] /\
  Mailbox.messageQueue (WorkerSide.box s) ++ WorkerSide.arrivals [e] =
    delivered (snd (WorkerSide.step s e)) ++
    Mailbox.messageQueue (WorkerSide.box (fst (WorkerSide.step s e))).
Proof.
  intros (Hst & Hs & Hset).
  pose proof (wsound_step s e Hs) as Hs1.
  pose proof Hs as (Hx & _ & cs & Hl).
  unfold serving.
  destruct e; simpl in *; unfold WorkerSide.user in *; rewrite ?Hst in *;
    rewrite ?app_nil_r.
  - unfold WorkerSide.message in *. rewrite Hl in *.
    destruct (settled_dispatch (O:=B) _ msg cs _ Hset) as [Hset1 Hres].
    pose proof (dispatch_conserves (O:=B) msg cs _ Hx) as Hcons.
    pose proof (invocations_dispatch msg (Route :: map Handler cs) (WorkerSide.box s)) as Hinv.
    destruct (Mailbox.dispatch msg (Route :: map Handler cs) (WorkerSide.box s)) as [b o].
    destruct (continuation_none o Hres) as [Hc He].
    simpl in *. rewrite Hc, He, Hst, app_nil_r. auto.
  - unfold WorkerSide.timeout in *.
    destruct (settled_timeout (O:=B) _ (WorkerSide.now s) r _ Hset) as [Hset1 Hres].
    pose proof (timeout_conserves (O:=B) (WorkerSide.now s) r (WorkerSide.box s)) as Hcons.
    assert (Hinv : invocations (snd (@Mailbox.timeout A B (WorkerSide.now s) r (WorkerSide.box s))) = []).
    { unfold Mailbox.timeout. destruct (Mailbox.due _ _); auto.
      destruct (_ <=? _); auto. }
    destruct (Mailbox.timeout (WorkerSide.now s) r (WorkerSide.box s)) as [b o].
    destruct (continuation_none o Hres) as [Hc He].
    simpl in *. rewrite Hc, He, Hst, app_nil_r. auto.
  - auto.
  - auto.
  - unfold WorkerSide.receive in *.
    destruct (settled_receive (O:=B) _ (WorkerSide.now s) timeoutMs _ Hset) as [Hset1 Hres].
    pose proof (receive_conserves (O:=B) (WorkerSide.now s) timeoutMs (WorkerSide.box s)) as Hcons.
    assert (Hinv : invocations (snd (@Mailbox.receive A B (WorkerSide.now s) timeoutMs (WorkerSide.box s))) = []).
    { unfold Mailbox.receive. destruct (Mailbox.messageQueue _); auto. }
    destruct (Mailbox.receive (WorkerSide.now s) timeoutMs (WorkerSide.box s)) as [b o].
    simpl in *. auto.
  - unfold WorkerSide.poll in *.
    destruct (settled_poll (O:=B) _ _ Hset) as [Hset1 Hres].
    pose proof (poll_conserves (O:=B) (WorkerSide.box s)) as Hcons.
    assert (Hinv : invocations (snd (@Mailbox.poll A B (WorkerSide.box s))) = []).
    { unfold Mailbox.poll. destruct (Mailbox.messageQueue _); auto. }
    destruct (Mailbox.poll (WorkerSide.box s)) as [b o].
    simpl in *. auto.
  - simpl in *. auto.
  - destruct (Nat.ltb c (WorkerSide.nextHandler s)); simpl in *; auto.
  - auto.
Qed.

Lemma arrivals_cons (e : WorkerSide.event A B) tr :
  WorkerSide.arrivals (e :: tr) = WorkerSide.arrivals [e] ++ WorkerSide.arrivals tr.
Proof. destruct e; reflexivity. Qed.

Lemma serving_run s tr :
  serving s ->
  WorkerSide.started (fst (WorkerSide.run s tr)) = true /\
  invocations (snd (WorkerSide.run s tr)) = [] /\
  resolutions (@WorkerSide.bootReceiver A) (snd (WorkerSide.run s tr)) = [] /\
  Mailbox.messageQueue (WorkerSide.box s) ++ WorkerSide.arrivals tr =
    delivered (snd (WorkerSide.run s tr)) ++
    Mailbox.messageQueue (WorkerSide.box (fst (WorkerSide.run s tr))).
Proof.
  revert s. induction tr as [|e tr IH]; intros s Hs.
  - simpl. rewrite app_nil_r. repeat split; auto. apply Hs.
  - destruct (serving_step s e Hs) as (Hs1 & Hi1 & Hr1 & Hq1).
    destruct (IH _ Hs1) as (Hst2 & Hi2 & Hr2 & Hq2).
    rewrite worker_run_cons, arrivals_cons. cbn [fst snd].
    split; [exact Hst2|].
    rewrite invocations_app, resolutions_app, delivered_app, Hi1, Hi2, Hr1, Hr2.
    repeat split; auto.
    rewrite (app_assoc (Mailbox.messageQueue (WorkerSide.box s))), Hq1.
    now rewrite <- !app_assoc, Hq2.
Qed.

(** The worker from its bootstrap on: nothing happens before the first
    message; the first message resolves the first receive() and
    [workerFn] is invoked on it, once; the messages after it, and only
    they, reach poll() and receive(), in order. *)
Lemma handshake_worker s tr :
  booting s ->
  match WorkerSide.arrivals tr with
  | [] =>
      WorkerSide.started (fst (WorkerSide.run s tr)) = false /\
      snd (WorkerSide.run s tr) = []
  | d :: rest =>
      WorkerSide.started (fst (WorkerSide.run s tr)) = true /\
      exists out,
        snd (WorkerSide.run s tr) =
          Resolved (@WorkerSide.bootReceiver A) (Some d) :: Invoked (Some d) :: out /\
        invocations out = [] /\
        resolutions (@WorkerSide.bootReceiver A) out = [] /\
        delivered out ++
          Mailbox.messageQueue (WorkerSide.box (fst (WorkerSide.run s tr))) = rest
  end.
Proof.
  revert s. induction tr as [|e tr IH]; intros s Hs.
  - simpl. split; auto. apply Hs.
  - rewrite worker_run_cons. cbn [fst snd].
    destruct (WorkerSide.arrivals [e]) as [|d [|? ?]] eqn:He.
    + destruct (booting_step s e Hs He) as [Hs1 Ho1].
      rewrite arrivals_cons, He, Ho1. simpl. apply IH, Hs1.
    + assert (e = WorkerSide.Message d) as ->.
      { destruct e; try discriminate He. now injection He as ->. }
      simpl. destruct (booting_message s d Hs) as (Hs1 & Hq1 & Ho1).
      destruct (serving_run _ tr Hs1) as (Hst2 & Hi2 & Hr2 & Hq2).
      rewrite Hq1 in Hq2. simpl in Hq2.
      split; [exact Hst2|].
      exists (snd (WorkerSide.run (fst (WorkerSide.message (O:=B) d s)) tr)).
      rewrite Ho1. simpl. auto.
    + destruct e; discriminate He.
Qed.

End Handshake.

(** C3: a start(data) that finds no Worker creates one and posts [data] to
    it before anything else; a start() that finds a Worker does nothing, so
    the data is the one of the first call.  The worker side makes one
    receive() without a timeout before anything else; when the messages
    posted to the Worker arrive in the order they were posted, that
    receive() is resolved with [data], [workerFn] is invoked once, with
    [data], after that and not before, and every message poll() and
    receive() hand out afterwards is one that arrived after [data]: the
    messages delivered and the ones still queued are, in order, the
    arrivals that follow the first. *)
Theorem handshake_delivers_data {A B : Type} (s : Main.state B)
    (tr : list (Main.event B A)) (data : A) (wtr : list (WorkerSide.event A B)) :
  let w := Main.nextWorker s in
  let sent := posts w (snd (Main.run s (Main.Start data :: tr))) in
  let ws := fst (WorkerSide.run (fst (@WorkerSide.workerBootstrap A B)) wtr) in
  let wout := snd (@WorkerSide.workerBootstrap A B) ++
              snd (WorkerSide.run (fst (@WorkerSide.workerBootstrap A B)) wtr) in
  Main.worker s = None ->
  (exists j, WorkerSide.arrivals wtr = firstn j sent) ->
  (exists rest, sent = data :: rest) /\
  (forall data' : A, Main.start (I:=B) data' (fst (Main.start (I:=B) data s)) =
                 (fst (Main.start (I:=B) data s), [])) /\
  (Mailbox.pendingReceivers (WorkerSide.box (fst (@WorkerSide.workerBootstrap A B))) =
     [@WorkerSide.bootReceiver A] /\
   Mailbox.timers (WorkerSide.box (fst (@WorkerSide.workerBootstrap A B))) = [] /\
   Mailbox.nextReceiver (WorkerSide.box (fst (@WorkerSide.workerBootstrap A B))) = 1%nat /\
   snd (@WorkerSide.workerBootstrap A B) = []) /\
  match WorkerSide.arrivals wtr with
  | [] => WorkerSide.started ws = false /\ wout = []
  | d :: rest =>
      d = data /\ WorkerSide.started ws = true /\
      exists out,
        wout = Resolved (@WorkerSide.bootReceiver A) (Some data) ::
               Invoked (Some data) :: out /\
        invocations out = [] /\
        resolutions (@WorkerSide.bootReceiver A) out = [] /\
        delivered out ++ Mailbox.messageQueue (WorkerSide.box ws) = rest
  end.
Proof.
  intros w sent ws wout Hw [j Hj].
  assert (Hsent : exists rest, sent = data :: rest).
  { unfold sent. rewrite main_run_cons. cbn [fst snd Main.step].
    unfold Main.start at 1. rewrite Hw. cbn [snd].
    simpl. fold w. rewrite Nat.eqb_refl. eauto. }
  split; [exact Hsent|]. split; [|split; [repeat split|]].
  - intros data'. unfold Main.start at 2 3. rewrite Hw. reflexivity.
  - pose proof (handshake_worker (B:=B) _ wtr (proj1 (booting_bootstrap (B:=B)))) as Hh.
    fold ws in Hh. unfold wout. simpl.
    destruct Hsent as [rest0 Hsent]. rewrite Hsent in Hj.
    destruct (WorkerSide.arrivals wtr) as [|d rest]; [exact Hh|].
    destruct j as [|j]; [discriminate|]. simpl in Hj. injection Hj as -> _.
    destruct Hh as (Hst & out & Hout & Hrest). split; auto. split; auto.
    exists out. auto.
Qed.

Lemma handshake_delivers_data_witness :
  let tr := [@Main.Send nat nat 8%nat; Main.Start 9%nat; Main.Send 10%nat] in
  let wtr := [@WorkerSide.Poll nat nat; WorkerSide.Message 7%nat; WorkerSide.Message 8%nat;
              WorkerSide.Poll; WorkerSide.Receive None; WorkerSide.Message 10%nat] in
  Main.worker (@Main.init nat) = None /\
  WorkerSide.arrivals wtr =
    firstn 3 (posts 0%nat (snd (Main.run (@Main.init nat) (Main.Start 7%nat :: tr)))) /\
  exists out,
    snd (WorkerSide.run (fst (@WorkerSide.workerBootstrap nat nat)) wtr) =
      Resolved 0%nat (Some 7%nat) :: Invoked (Some 7%nat) :: out /\
    invocations out = [] /\
    delivered out = [8%nat; 10%nat].
Proof.
  split; [reflexivity|]. split; [reflexivity|].
  destruct (proj2 (proj2 (proj2
    (handshake_delivers_data (@Main.init nat)
       [@Main.Send nat nat 8%nat; Main.Start 9%nat; Main.Send 10%nat] 7%nat
       [@WorkerSide.Poll nat nat; WorkerSide.Message 7%nat; WorkerSide.Message 8%nat;
        WorkerSide.Poll; WorkerSide.Receive None; WorkerSide.Message 10%nat]
       eq_refl (ex_intro _ 3%nat eq_refl)))))
    as (_ & _ & out & Hout & Hinv & _ & _).
  exists out. split; [exact Hout|]. split; [exact Hinv|].
  simpl in Hout. injection Hout as <-. reflexivity.
Defined.

(** * Further properties of the initiator *)

(** ** Order of delivery *)
Section Delivery.
Context {I O : Type}.
Implicit Types (s : Main.state I) (tr : list (Main.event I O)) (w : handle).

Lemma polled_app (o1 o2 : list (output I O)) : polled (o1 ++ o2) = polled o1 ++ polled o2.
Proof.
  induction o1 as [|x o1 IH]; simpl; auto.
  destruct x; simpl; now rewrite ?IH.
Qed.

Lemma polled_called (msg : I) cs : polled (map (fun c => @Called I O c msg) cs) = [].
Proof. induction cs; simpl; auto. Qed.

Lemma spawns_app (o1 o2 : list (output I O)) : spawns (o1 ++ o2) = spawns o1 ++ spawns o2.
Proof.
  induction o1 as [|x o1 IH]; simpl; auto.
  destruct x; simpl; now rewrite ?IH.
Qed.

Lemma posts_app w (o1 o2 : list (output I O)) :
  posts w (o1 ++ o2) = posts w o1 ++ posts w o2.
Proof.
  induction o1 as [|x o1 IH]; simpl; auto.
  destruct x; auto. destruct (Nat.eqb w0 w); simpl; now rewrite IH.
Qed.

(** While the Worker runs, a step that is not stop() keeps it and loses
    no message. *)
Lemma running_step s w (e : Main.event I O) :
  sound s -> Main.worker s = Some w -> is_stop e = false ->
  Main.worker (fst (Main.step s e)) = Some w /\
  Mailbox.messageQueue (Main.box s) ++ arrivals_on w [e] =
    delivered (snd (Main.step s e)) ++ Mailbox.messageQueue (Main.box (fst (Main.step s e))).
Proof.
  intros Hs Hw Hstop. destruct e; try discriminate Hstop; simpl; rewrite ?app_nil_r.
  - unfold Main.start. rewrite Hw. auto.
  - unfold Main.send. rewrite Hw. auto.
  - unfold Main.receive.
    pose proof (receive_conserves (O:=O) (Main.now s) timeoutMs (Main.box s)).
    destruct (Mailbox.receive _ _ _). simpl in *. auto.
  - unfold Main.poll.
    pose proof (poll_conserves (O:=O) (Main.box s)).
    destruct (Mailbox.poll _). simpl in *. auto.
  - unfold Main.subscribe. rewrite Hw. auto.
  - unfold Main.unsubscribe. destruct (Nat.ltb c (Main.nextHandler s)); auto.
    rewrite Hw. auto.
  - destruct (Nat.eqb_spec w0 w) as [->|Hne].
    + destruct (message_routes (O:=O) s w msg Hs Hw) as (cs & _ & _ & Hm).
      rewrite Hm. simpl. rewrite delivered_app, delivered_called, app_nil_r.
      split; auto. apply route_conserves, Hs.
    + unfold Main.message. rewrite Hw.
      destruct (Nat.eqb_spec w w0); [congruence|]. rewrite app_nil_r. auto.
  - unfold Main.timeout.
    pose proof (timeout_conserves (O:=O) (Main.now s) r (Main.box s)).
    destruct (Mailbox.timeout _ _ _). simpl in *. auto.
  - auto.
Qed.

Lemma running_run s w tr :
  sound s -> Main.worker s = Some w -> without is_stop tr = true ->
  Main.worker (fst (Main.run s tr)) = Some w /\
  Mailbox.messageQueue (Main.box s) ++ arrivals_on w tr =
    delivered (snd (Main.run s tr)) ++ Mailbox.messageQueue (Main.box (fst (Main.run s tr))).
Proof.
  revert s. induction tr as [|e tr IH]; intros s Hs Hw Hstop.
  - simpl. rewrite app_nil_r. auto.
  - rewrite without_cons in Hstop. apply andb_true_iff in Hstop as [He Hstop].
    apply negb_true_iff in He.
    destruct (running_step s w e Hs Hw He) as (Hw1 & Hq1).
    destruct (IH _ (sound_step s e Hs) Hw1 Hstop) as (Hw2 & Hq2).
    rewrite main_run_cons, arrivals_on_cons. cbn [fst snd].
    split; auto.
    rewrite delivered_app, (app_assoc (Mailbox.messageQueue (Main.box s))), Hq1.
    now rewrite <- !app_assoc, Hq2.
Qed.

(** Messages that arrive while nobody waits are queued behind the ones
    already there. *)
Lemma messages_queue w (ms : list I) s :
  sound s -> Main.worker s = Some w ->
  Mailbox.pendingReceivers (Main.box s) = [] ->
  let s1 := fst (Main.run s (map (@Main.Message I O w) ms)) in
  Mailbox.messageQueue (Main.box s1) = Mailbox.messageQueue (Main.box s) ++ ms /\
  polled (snd (Main.run s (map (@Main.Message I O w) ms))) = [].
Proof.
  revert s. induction ms as [|m ms IH]; intros s Hs Hw Hp.
  - simpl. now rewrite app_nil_r.
  - cbn [map]. rewrite main_run_cons. cbn [fst snd].
    destruct (message_routes (O:=O) s w m Hs Hw) as (cs & _ & _ & Hm).
    pose proof (sound_step s (@Main.Message I O w m) Hs) as Hs1.
    cbn [Main.step] in *. rewrite Hm in *. cbn [fst snd] in *.
    unfold Mailbox.route in *. rewrite Hp in *. cbn [fst snd] in *.
    destruct (IH _ Hs1 Hw eq_refl) as (Hq & Hpo).
    rewrite Hq, polled_app, Hpo. simpl.
    now rewrite polled_called, <- app_assoc.
Qed.

(** poll() calls empty a queue from the front and return undefined once
    it is empty. *)
Lemma polls_drain (n : nat) s :
  polled (snd (Main.run s (repeat (@Main.Poll I O) n))) =
  map Some (firstn n (Mailbox.messageQueue (Main.box s))) ++
  repeat None (n - List.length (Mailbox.messageQueue (Main.box s))).
Proof.
  revert s. induction n as [|n IH]; intros s; [reflexivity|].
  cbn [repeat]. rewrite main_run_cons. cbn [fst snd Main.step].
  rewrite polled_app, IH. unfold Main.poll, Mailbox.poll.
  destruct (Mailbox.messageQueue (Main.box s)) as [|m q] eqn:Hq; simpl.
  - rewrite Hq. simpl. now rewrite firstn_nil, Nat.sub_0_r.
  - reflexivity.
Qed.

End Delivery.

(** X1: while the Worker is not stopped, whatever calls and events are
    interleaved, the messages receive() and poll() handed out followed by
    the ones still queued are the ones that were queued followed by the ones
    that arrived: every message is handed out at most once, in arrival
    order, and none is dropped. *)
Theorem messages_handed_out_in_order {I O : Type} (tr0 tr : list (Main.event I O))
    (w : handle) :
  let s := fst (Main.run Main.init tr0) in
  Main.worker s = Some w ->
  without is_stop tr = true ->
  Mailbox.messageQueue (Main.box s) ++ arrivals_on w tr =
    delivered (snd (Main.run s tr)) ++
    Mailbox.messageQueue (Main.box (fst (Main.run s tr))).
Proof.
  intros s Hw Hstop.
  apply (running_run s w tr); auto. apply sound_run, sound_init.
Qed.

Lemma messages_handed_out_in_order_witness :
  let tr0 := [@Main.Start nat nat 7%nat; Main.Receive (Some 5)] in
  let tr := [@Main.Message nat nat 0%nat 10%nat; Main.Message 0%nat 11%nat; Main.Poll;
             Main.Message 0%nat 12%nat; Main.Receive None] in
  Main.worker (fst (Main.run Main.init tr0)) = Some 0%nat /\
  without is_stop tr = true /\
  [] ++ [10%nat; 11%nat; 12%nat] =
    delivered (snd (Main.run (fst (Main.run Main.init tr0)) tr)) ++
    Mailbox.messageQueue (Main.box (fst (Main.run (fst (Main.run Main.init tr0)) tr))).
Proof.
  split; [reflexivity|]. split; [reflexivity|].
  exact (messages_handed_out_in_order
           [@Main.Start nat nat 7%nat; Main.Receive (Some 5)]
           [@Main.Message nat nat 0%nat 10%nat; Main.Message 0%nat 11%nat; Main.Poll;
            Main.Message 0%nat 12%nat; Main.Receive None]
           0%nat eq_refl eq_refl).
Defined.

(** X2: when messages arrive while no receive() is pending, the poll()
    calls that follow return the queued messages oldest first, one per
    call, and undefined once the queue is empty. *)
Theorem poll_returns_messages_in_order {I O : Type} (tr0 : list (Main.event I O))
    (w : handle) (ms : list I) (n : nat) :
  let s := fst (Main.run Main.init tr0) in
  let q := Mailbox.messageQueue (Main.box s) ++ ms in
  Main.worker s = Some w ->
  Mailbox.pendingReceivers (Main.box s) = [] ->
  polled (snd (Main.run s (map (@Main.Message I O w) ms ++ repeat (@Main.Poll I O) n))) =
  map Some (firstn n q) ++ repeat None (n - List.length q).
Proof.
  intros s q Hw Hp.
  assert (Hs : sound s) by apply sound_run, sound_init.
  destruct (messages_queue (O:=O) w ms s Hs Hw Hp) as (Hq & Hpo).
  rewrite main_run_app. cbn [snd]. rewrite polled_app, Hpo, polls_drain, Hq.
  reflexivity.
Qed.

Lemma poll_returns_messages_in_order_witness :
  let s := fst (Main.run (@Main.init nat) [@Main.Start nat nat 7%nat]) in
  Main.worker s = Some 0%nat /\
  Mailbox.pendingReceivers (Main.box s) = [] /\
  polled (snd (Main.run s (map (@Main.Message nat nat 0%nat) [10%nat; 11%nat] ++
                           repeat (@Main.Poll nat nat) 3))) =
  [Some 10%nat; Some 11%nat; None].
Proof.
  split; [reflexivity|]. split; [reflexivity|].
  exact (poll_returns_messages_in_order [@Main.Start nat nat 7%nat] 0%nat
           [10%nat; 11%nat] 3 eq_refl eq_refl).
Defined.

(** ** start() and send() while the Worker runs *)
Section Running.
Context {I O : Type}.
Implicit Types (s : Main.state I) (tr : list (Main.event I O)) (w : handle).

Lemma dispatch_posts_nothing w (msg : I) (ls : list listener) (b : Mailbox.t I) :
  spawns (snd (@Mailbox.dispatch I O msg ls b)) = [] /\
  posts w (snd (@Mailbox.dispatch I O msg ls b)) = [].
Proof.
  revert b. induction ls as [|[|c] ls IH]; intros b; simpl; auto.
  - unfold Mailbox.route.
    destruct (Mailbox.pendingReceivers b); simpl;
      match goal with
      | |- context [Mailbox.dispatch msg ls ?b1] =>
          specialize (IH b1); destruct (Mailbox.dispatch msg ls b1)
      end; simpl in *; auto.
  - specialize (IH b). destruct (Mailbox.dispatch msg ls b). simpl in *. auto.
Qed.

Lemma posting_step s w (e : Main.event I O) :
  Main.worker s = Some w -> is_stop e = false ->
  Main.worker (fst (Main.step s e)) = Some w /\
  spawns (snd (Main.step s e)) = [] /\
  posts w (snd (Main.step s e)) = sends [e].
Proof.
  intros Hw Hstop. destruct e; try discriminate Hstop; simpl.
  - unfold Main.start. rewrite Hw. auto.
  - unfold Main.send. rewrite Hw. simpl. rewrite Nat.eqb_refl. auto.
  - unfold Main.receive, Mailbox.receive.
    destruct (Mailbox.messageQueue (Main.box s)); auto.
  - unfold Main.poll, Mailbox.poll.
    destruct (Mailbox.messageQueue (Main.box s)); auto.
  - unfold Main.subscribe. rewrite Hw. auto.
  - unfold Main.unsubscribe. destruct (Nat.ltb c (Main.nextHandler s)); auto.
    rewrite Hw. auto.
  - unfold Main.message. rewrite Hw. destruct (Nat.eqb w w0); auto.
    pose proof (dispatch_posts_nothing w msg (Main.on w0 (Main.listeners s)) (Main.box s)).
    destruct (Mailbox.dispatch _ _ _). simpl in *. tauto.
  - unfold Main.timeout, Mailbox.timeout.
    destruct (Mailbox.due r (Mailbox.timers (Main.box s))) as [d|]; auto.
    destruct (d <=? Main.now s); auto.
  - auto.
Qed.

Lemma sends_cons (e : Main.event I O) tr : sends (e :: tr) = sends [e] ++ sends tr.
Proof. destruct e; reflexivity. Qed.

End Running.

(** X3: while a Worker runs and stop() is not called, start() does nothing,
    whatever data it is given: no Worker is created, the Worker in use
    stays, and what is posted to it is exactly the messages of the send()
    calls, in order; the data of a later start() is never posted. *)
Theorem start_while_running_does_nothing {I O : Type} (s : Main.state I) (w : handle)
    (tr : list (Main.event I O)) :
  Main.worker s = Some w ->
  without is_stop tr = true ->
  Main.worker (fst (Main.run s tr)) = Some w /\
  spawns (snd (Main.run s tr)) = [] /\
  posts w (snd (Main.run s tr)) = sends tr.
Proof.
  revert s. induction tr as [|e tr IH]; intros s Hw Hstop; [simpl; auto|].
  rewrite without_cons in Hstop. apply andb_true_iff in Hstop as [He Hstop].
  apply negb_true_iff in He.
  destruct (posting_step s w e Hw He) as (Hw1 & Hsp1 & Hp1).
  destruct (IH _ Hw1 Hstop) as (Hw2 & Hsp2 & Hp2).
  rewrite main_run_cons, sends_cons. cbn [fst snd].
  rewrite spawns_app, posts_app, Hsp1, Hsp2, Hp1, Hp2. auto.
Qed.

Lemma start_while_running_does_nothing_witness :
  let s := fst (Main.run (@Main.init nat) [@Main.Start nat nat 7%nat]) in
  let tr := [@Main.Send nat nat 1%nat; Main.Start 8%nat; Main.Send 2%nat; Main.Start 9%nat] in
  Main.worker s = Some 0%nat /\
  without is_stop tr = true /\
  posts 0%nat (snd (Main.run s tr)) = [1%nat; 2%nat].
Proof.
  split; [reflexivity|]. split; [reflexivity|].
  exact (proj2 (proj2
    (start_while_running_does_nothing
       (fst (Main.run (@Main.init nat) [@Main.Start nat nat 7%nat])) 0%nat
       [@Main.Send nat nat 1%nat; Main.Start 8%nat; Main.Send 2%nat; Main.Start 9%nat]
       eq_refl eq_refl))).
Defined.

(** ** What stop() leaves behind *)
Section Stopping.
Context {I O : Type}.
Implicit Types (s : Main.state I) (tr : list (Main.event I O)) (r : rid)
  (b : Mailbox.t I).

Lemma due_absent r (ts : list (rid * Z)) :
  Mailbox.due r ts = None -> forall d, ~ In (r, d) ts.
Proof.
  unfold Mailbox.due.
  destruct (find (fun e => Nat.eqb (fst e) r) ts) eqn:Hf; [discriminate|].
  intros _ d Hin. eapply find_none in Hf; eauto. simpl in Hf.
  now rewrite Nat.eqb_refl in Hf.
Qed.

(** *** A timer outlives its resolver *)

Lemma orphaned_receive r d now t b :
  orphaned r d b ->
  orphaned r d (fst (@Mailbox.receive I O now t b)) /\
  resolutions r (snd (@Mailbox.receive I O now t b)) = [].
Proof.
  intros (Hp & Hd & Hn). unfold Mailbox.receive, orphaned.
  destruct (Mailbox.messageQueue b) as [|m q]; simpl.
  - repeat split; auto; try lia.
    + intros Hin. apply in_app_iff in Hin as [Hin|[Heq|[]]]; [tauto|lia].
    + destruct t; auto. now apply due_app_old.
  - destruct (Nat.eqb_spec (Mailbox.nextReceiver b) r); [lia|].
    repeat split; auto; lia.
Qed.

Lemma orphaned_poll r d b :
  orphaned r d b ->
  orphaned r d (fst (@Mailbox.poll I O b)) /\
  resolutions r (snd (@Mailbox.poll I O b)) = [].
Proof.
  intros H. unfold Mailbox.poll. destruct (Mailbox.messageQueue b); simpl; auto.
Qed.

Lemma orphaned_route r d msg b :
  orphaned r d b ->
  orphaned r d (fst (@Mailbox.route I O msg b)) /\
  resolutions r (snd (@Mailbox.route I O msg b)) = [].
Proof.
  intros (Hp & Hd & Hn). unfold Mailbox.route, orphaned.
  destruct (Mailbox.pendingReceivers b) as [|r' rest]; simpl.
  - repeat split; auto.
  - destruct (Nat.eqb_spec r' r) as [->|Hne]; [exfalso; apply Hp; now left|].
    repeat split; auto.
    + intros Hin. apply Hp. now right.
    + rewrite due_clearTimeout_other; auto.
  Qed.

Lemma orphaned_timeout r d now r' b :
  orphaned r d b -> r' <> r ->
  orphaned r d (fst (@Mailbox.timeout I O now r' b)) /\
  resolutions r (snd (@Mailbox.timeout I O now r' b)) = [].
Proof.
  intros (Hp & Hd & Hn) Hne. unfold Mailbox.timeout.
  destruct (Mailbox.due r' (Mailbox.timers b)) as [d'|];
    [|split; [split|]; auto].
  destruct (d' <=? now); [|split; [split|]; auto].
  simpl. destruct (Nat.eqb_spec r' r); [contradiction|].
  split; auto. split; [|split]; simpl; auto.
  - intros Hin. apply splice_subset in Hin. auto.
  - rewrite due_clearTimeout_other; auto.
Qed.

Lemma orphaned_listeners r d msg (ls : list listener) b :
  orphaned r d b ->
  orphaned r d (fst (@Mailbox.dispatch I O msg ls b)) /\
  resolutions r (snd (@Mailbox.dispatch I O msg ls b)) = [].
Proof.
  revert b. induction ls as [|[|c] ls IH]; intros b Hb; simpl; auto.
  - destruct (orphaned_route r d msg b Hb) as [H1 H2].
    destruct (Mailbox.route msg b) as [b1 o1]. simpl in *.
    destruct (IH b1 H1) as [H3 H4].
    destruct (Mailbox.dispatch msg ls b1) as [b2 o2]. simpl in *.
    split; auto. now rewrite resolutions_app, H2, H4.
  - destruct (IH b Hb) as [H3 H4].
    destruct (Mailbox.dispatch msg ls b) as [b2 o2]. simpl in *. auto.
Qed.

Lemma orphaned_step r d s (e : Main.event I O) :
  orphaned r d (Main.box s) -> is_timeout_of r e = false ->
  orphaned r d (Main.box (fst (Main.step s e))) /\
  resolutions r (snd (Main.step s e)) = [].
Proof.
  intros H He. destruct e; simpl.
  - unfold Main.start. destruct (Main.worker s); auto.
  - unfold Main.send. destruct (Main.worker s); auto.
  - unfold Main.receive.
    pose proof (orphaned_receive r d (Main.now s) timeoutMs _ H).
    destruct (Mailbox.receive _ _ _); auto.
  - unfold Main.poll.
    pose proof (orphaned_poll r d _ H). destruct (Mailbox.poll _); auto.
  - unfold Main.subscribe. destruct (Main.worker s); auto.
  - unfold Main.unsubscribe. destruct (Nat.ltb c (Main.nextHandler s)); auto.
    destruct (Main.worker s); auto.
  - unfold Main.stop. destruct (Main.worker s); auto. simpl.
    split; auto. destruct H as (Hp & Hd & Hn). split; [|split]; simpl; auto.
  - unfold Main.message. destruct (Main.worker s) as [w'|]; auto.
    destruct (Nat.eqb w' w); auto.
    pose proof (orphaned_listeners r d msg (Main.on w (Main.listeners s)) _ H).
    destruct (Mailbox.dispatch _ _ _); auto.
  - simpl in He. apply Nat.eqb_neq in He.
    unfold Main.timeout.
    pose proof (orphaned_timeout r d (Main.now s) r0 _ H He).
    destruct (Mailbox.timeout _ _ _); auto.
  - auto.
Qed.

Lemma orphaned_run r d s tr :
  orphaned r d (Main.box s) -> without (is_timeout_of r) tr = true ->
  orphaned r d (Main.box (fst (Main.run s tr))) /\
  resolutions r (snd (Main.run s tr)) = [].
Proof.
  revert s. induction tr as [|e tr IH]; intros s H Ht; [simpl; auto|].
  rewrite without_cons in Ht. apply andb_true_iff in Ht as [He Ht].
  apply negb_true_iff in He.
  destruct (orphaned_step r d s e H He) as [H1 H2].
  destruct (IH _ H1 Ht) as [H3 H4].
  rewrite main_run_cons. cbn [fst snd].
  split; auto. now rewrite resolutions_app, H2, H4.
Qed.

End Stopping.

(** X4: a receive() without a timeout that is pending when stop() is called
    is never resolved: not by stop(), and not by anything that happens
    afterwards, a restart and messages of the new Worker included. *)
Theorem stop_abandons_untimed_receive {I O : Type} (tr0 tr : list (Main.event I O))
    (w : handle) (r : rid) :
  let s := fst (Main.run Main.init tr0) in
  Main.worker s = Some w ->
  In r (Mailbox.pendingReceivers (Main.box s)) ->
  Mailbox.due r (Mailbox.timers (Main.box s)) = None ->
  resolutions r (snd (Main.run s (Main.Stop :: tr))) = [].
Proof.
  intros s Hw Hin Hd.
  assert (Hs : sound s) by apply sound_run, sound_init.
  destruct Hs as (_ & (Hp & _ & _) & _).
  rewrite main_run_cons. cbn [fst snd Main.step].
  unfold Main.stop. rewrite Hw. cbn [fst snd]. simpl.
  apply (settled_run (O:=O)). split; [|split]; simpl; auto.
  now apply due_absent.
Qed.

Lemma stop_abandons_untimed_receive_witness :
  let tr0 := [@Main.Start nat nat 7%nat; Main.Receive None] in
  let tr := [@Main.Start nat nat 8%nat; Main.Message 1%nat 10%nat; Main.Tick 100;
             Main.Timeout 0%nat] in
  let s := fst (Main.run Main.init tr0) in
  Main.worker s = Some 0%nat /\
  In 0%nat (Mailbox.pendingReceivers (Main.box s)) /\
  Mailbox.due 0%nat (Mailbox.timers (Main.box s)) = None /\
  resolutions 0%nat (snd (Main.run s (Main.Stop :: tr))) = [].
Proof.
  split; [reflexivity|]. split; [left; reflexivity|]. split; [reflexivity|].
  exact (stop_abandons_untimed_receive
           [@Main.Start nat nat 7%nat; Main.Receive None]
           [@Main.Start nat nat 8%nat; Main.Message 1%nat 10%nat; Main.Tick 100;
            Main.Timeout 0%nat]
           0%nat 0%nat eq_refl (or_introl eq_refl) eq_refl).
Defined.

(** X5: stop() empties the pending list and clears no timer: a
    receive(timeoutMs) that is pending when stop() is called stays
    unresolved until its timer fires, whatever happens in between (a
    restart and messages of the new Worker included), and is then resolved
    with undefined, at its due time or later and not before. *)
Theorem stop_keeps_timers {I O : Type} (tr0 tr : list (Main.event I O))
    (w : handle) (r : rid) (d : Z) :
  let s := fst (Main.run Main.init tr0) in
  let s2 := fst (Main.run s (Main.Stop :: tr)) in
  Main.worker s = Some w ->
  In r (Mailbox.pendingReceivers (Main.box s)) ->
  Mailbox.due r (Mailbox.timers (Main.box s)) = Some d ->
  without (is_timeout_of r) tr = true ->
  resolutions r (snd (Main.run s (Main.Stop :: tr))) = [] /\
  (Main.now s2 < d -> snd (Main.timeout (O:=O) r s2) = []) /\
  (d <= Main.now s2 -> snd (Main.timeout (O:=O) r s2) = [Resolved r None]).
Proof.
  intros s s2 Hw Hin Hd Ht.
  assert (Hs : sound s) by apply sound_run, sound_init.
  destruct Hs as (_ & (Hp & _ & _) & _).
  assert (Ho : orphaned r d (Main.box (fst (@Main.stop I O s)))).
  { unfold Main.stop. rewrite Hw. split; [|split]; simpl; auto. }
  destruct (orphaned_run (O:=O) r d _ tr Ho Ht) as [(_ & Hd2 & _) Hr].
  unfold s2. rewrite main_run_cons. cbn [fst snd Main.step].
  split; [|split].
  - unfold Main.stop at 1. rewrite Hw. simpl. exact Hr.
  - intros Hnow. unfold Main.timeout, Mailbox.timeout. rewrite Hd2.
    destruct (Z.leb_spec d (Main.now (fst (Main.run (fst (@Main.stop I O s)) tr)))); [lia|].
    reflexivity.
  - intros Hnow. unfold Main.timeout, Mailbox.timeout. rewrite Hd2.
    destruct (Z.leb_spec d (Main.now (fst (Main.run (fst (@Main.stop I O s)) tr)))); [|lia].
    reflexivity.
Qed.

Lemma stop_keeps_timers_witness :
  let tr0 := [@Main.Start nat nat 7%nat; Main.Receive (Some 50)] in
  let tr := [@Main.Start nat nat 8%nat; Main.Message 1%nat 10%nat; Main.Tick 60] in
  let s := fst (Main.run Main.init tr0) in
  Main.worker s = Some 0%nat /\
  In 0%nat (Mailbox.pendingReceivers (Main.box s)) /\
  Mailbox.due 0%nat (Mailbox.timers (Main.box s)) = Some 50 /\
  without (is_timeout_of 0%nat) tr = true /\
  50 <= Main.now (fst (Main.run s (Main.Stop :: tr))) /\
  snd (Main.timeout (O:=nat) 0%nat (fst (Main.run s (Main.Stop :: tr)))) =
    [Resolved 0%nat None].
Proof.
  split; [reflexivity|]. split; [left; reflexivity|]. split; [reflexivity|].
  split; [reflexivity|]. split; [vm_compute; discriminate|].
  refine (proj2 (proj2
    (stop_keeps_timers
       [@Main.Start nat nat 7%nat; Main.Receive (Some 50)]
       [@Main.Start nat nat 8%nat; Main.Message 1%nat 10%nat; Main.Tick 60]
       0%nat 0%nat 50 eq_refl (or_introl eq_refl) eq_refl eq_refl)) _).
  vm_compute; discriminate.
Defined.

(** ** One timeout, one receiver *)
Section OneTimeout.
Context {I O : Type}.

Lemma splice_filter (r : rid) (a : list rid) :
  NoDup a -> Mailbox.splice r a = filter (fun x => negb (Nat.eqb x r)) a.
Proof.
  induction 1 as [|x a Hx Hnd IH]; simpl; auto.
  destruct (Nat.eqb_spec x r) as [->|Hne]; simpl.
  - clear IH Hnd. symmetry. induction a as [|y a IH]; simpl; auto.
    destruct (Nat.eqb_spec y r) as [->|Hne]; simpl.
    + exfalso. apply Hx. now left.
    + f_equal. apply IH. intros H. apply Hx. now right.
  - now rewrite IH.
Qed.

End OneTimeout.

(** X6: a timer that fires cancels its own receive() and nothing else: the
    other pending receivers stay, in their order, the queue is untouched,
    the timers of the other receivers stay set for the same time, and the
    Worker and the subscriptions are as before. *)
Theorem timeout_cancels_one_receiver {I O : Type} (tr0 : list (Main.event I O))
    (r : rid) (d : Z) :
  let s := fst (Main.run Main.init tr0) in
  let s' := fst (Main.timeout (O:=O) r s) in
  Mailbox.due r (Mailbox.timers (Main.box s)) = Some d ->
  d <= Main.now s ->
  Mailbox.pendingReceivers (Main.box s') =
    filter (fun x => negb (Nat.eqb x r)) (Mailbox.pendingReceivers (Main.box s)) /\
  Mailbox.messageQueue (Main.box s') = Mailbox.messageQueue (Main.box s) /\
  (forall r', r' <> r ->
     Mailbox.due r' (Mailbox.timers (Main.box s')) =
     Mailbox.due r' (Mailbox.timers (Main.box s))) /\
  Main.worker s' = Main.worker s /\ Main.listeners s' = Main.listeners s.
Proof.
  intros s s' Hd Hnow.
  assert (Hs : sound s) by apply sound_run, sound_init.
  destruct Hs as (_ & (_ & _ & Hnd) & _).
  unfold s', Main.timeout, Mailbox.timeout. rewrite Hd.
  destruct (Z.leb_spec d (Main.now s)); [|lia]. simpl.
  split; [now apply splice_filter|]. split; auto. split; auto.
  intros r' Hne. now apply due_clearTimeout_other.
Qed.

Lemma timeout_cancels_one_receiver_witness :
  let tr0 := [@Main.Start nat nat 7%nat; Main.Receive None; Main.Receive (Some 5);
              Main.Receive (Some 20); Main.Tick 6] in
  let s := fst (Main.run Main.init tr0) in
  Mailbox.due 1%nat (Mailbox.timers (Main.box s)) = Some 5 /\
  5 <= Main.now s /\
  Mailbox.pendingReceivers (Main.box (fst (Main.timeout (O:=nat) 1%nat s))) =
    [0%nat; 2%nat].
Proof.
  split; [reflexivity|]. split; [vm_compute; discriminate|].
  refine (proj1
    (timeout_cancels_one_receiver
       [@Main.Start nat nat 7%nat; Main.Receive None; Main.Receive (Some 5);
        Main.Receive (Some 20); Main.Tick 6]
       1%nat 5 eq_refl _)).
  vm_compute; discriminate.
Defined.

(** ** Handlers that are not attached *)
Section Detached.
Context {I O : Type}.
Implicit Types (s : Main.state I) (tr : list (Main.event I O)) (w : handle) (c : sid).

Lemma filter_absent c cs : ~ In c cs -> filter (fun d => Nat.eqb d c) cs = [].
Proof.
  induction cs as [|d cs IH]; simpl; auto. intros H.
  destruct (Nat.eqb_spec d c) as [->|Hne]; [exfalso; apply H; now left|].
  apply IH. intros Hin. apply H. now right.
Qed.

Lemma calls_listeners c (msg : I) (ls : list listener) (b : Mailbox.t I) :
  ~ In (Handler c) ls ->
  calls c (snd (@Mailbox.dispatch I O msg ls b)) = [].
Proof.
  revert b. induction ls as [|[|c'] ls IH]; intros b Hc; simpl; auto.
  - pose proof (calls_route (O:=O) c msg b) as Hr.
    destruct (Mailbox.route msg b) as [b1 o1]. simpl in Hr.
    assert (Hc' : ~ In (Handler c) ls) by (intros H; apply Hc; now right).
    specialize (IH b1 Hc'). destruct (Mailbox.dispatch msg ls b1). simpl in *.
    now rewrite calls_app, Hr, IH.
  - assert (Hc' : ~ In (Handler c) ls) by (intros H; apply Hc; now right).
    specialize (IH b Hc'). destruct (Mailbox.dispatch msg ls b). simpl in *.
    destruct (Nat.eqb_spec c' c) as [->|Hne]; [exfalso; apply Hc; now left|].
    exact IH.
Qed.

Lemma detached_step c s (e : Main.event I O) :
  detached c s ->
  detached c (fst (Main.step s e)) /\ calls c (snd (Main.step s e)) = [].
Proof.
  intros (Hs & Hc & Hd).
  pose proof (sound_step s e Hs) as Hs1.
  pose proof Hs as (_ & _ & Hw & _ & _).
  unfold detached.
  split; [split; [exact Hs1|]|]; clear Hs1; destruct e; simpl.
  - unfold Main.start. destruct (Main.worker s) as [w|] eqn:Hws; simpl.
    + split; auto. rewrite Hws. exact Hd.
    + split; auto. intros w [= <-] Hin.
      apply in_app_iff in Hin as [Hin|[[=]|[]]]. apply Hw in Hin. lia.
  - unfold Main.send. destruct (Main.worker s) eqn:Hws; simpl; rewrite ?Hws; auto.
  - unfold Main.receive. destruct (Mailbox.receive _ _ _). simpl. auto.
  - unfold Main.poll. destruct (Mailbox.poll _). simpl. auto.
  - unfold Main.subscribe. destruct (Main.worker s) as [w|] eqn:Hws; simpl.
    + split; [lia|]. intros w' [= <-] Hin.
      apply in_app_iff in Hin as [Hin|[[= Heq]|[]]]; [|lia].
      now apply (Hd w).
    + split; auto. rewrite Hws. discriminate.
  - unfold Main.unsubscribe. destruct (Nat.ltb c0 (Main.nextHandler s)); simpl; auto.
    destruct (Main.worker s) as [w|] eqn:Hws; simpl.
    + split; auto. rewrite Hws. intros w' [= <-] Hin.
      apply filter_In in Hin as [Hin _]. now apply (Hd w).
    + split; auto. rewrite Hws. discriminate.
  - unfold Main.stop. destruct (Main.worker s) as [w|] eqn:Hws; simpl.
    + split; auto. discriminate.
    + split; auto. rewrite Hws. discriminate.
  - unfold Main.message. destruct (Main.worker s) as [w'|] eqn:Hws; simpl; rewrite ?Hws; auto.
    destruct (Nat.eqb w' w); simpl; rewrite ?Hws; auto.
    destruct (Mailbox.dispatch _ _ _). simpl. rewrite Hws. auto.
  - unfold Main.timeout. destruct (Mailbox.timeout _ _ _). simpl. auto.
  - auto.
  - unfold Main.start. destruct (Main.worker s); auto.
  - unfold Main.send. destruct (Main.worker s); auto.
  - unfold Main.receive.
    pose proof (calls_receive (O:=O) c (Main.now s) timeoutMs (Main.box s)).
    destruct (Mailbox.receive _ _ _); auto.
  - unfold Main.poll. pose proof (calls_poll (O:=O) c (Main.box s)).
    destruct (Mailbox.poll _); auto.
  - unfold Main.subscribe. destruct (Main.worker s); auto.
  - unfold Main.unsubscribe. destruct (Nat.ltb c0 (Main.nextHandler s)); auto.
    destruct (Main.worker s); auto.
  - unfold Main.stop. destruct (Main.worker s); auto.
  - unfold Main.message. destruct (Main.worker s) as [w'|] eqn:Hws; auto.
    destruct (Nat.eqb_spec w' w) as [->|Hne]; auto.
    pose proof (calls_listeners c msg (Main.on w (Main.listeners s)) (Main.box s)) as Hcl.
    destruct (Mailbox.dispatch _ _ _). simpl in *. apply Hcl.
    intros Hin. apply In_on in Hin. now apply (Hd w).
  - unfold Main.timeout.
    pose proof (calls_timeout (O:=O) c (Main.now s) r (Main.box s)).
    destruct (Mailbox.timeout _ _ _); auto.
  - auto.
Qed.

Lemma detached_run c s tr :
  detached c s -> calls c (snd (Main.run s tr)) = [].
Proof.
  revert s. induction tr as [|e tr IH]; intros s H; [reflexivity|].
  destruct (detached_step c s e H) as [H1 H2].
  rewrite main_run_cons. cbn [fst snd].
  now rewrite calls_app, H2, IH.
Qed.

End Detached.

(** X7: once the unsubscribe function of a subscription attached to the
    Worker in use has been called, the callback of that subscription never
    runs again, whatever happens afterwards: messages of that Worker, a
    stop(), a restart, new subscriptions and messages of a new Worker. *)
Theorem callback_never_runs_after_unsubscribe {I O : Type}
    (tr0 tr : list (Main.event I O)) (w : handle) (c : sid) :
  let s := fst (Main.run Main.init tr0) in
  Main.worker s = Some w ->
  In (w, Handler c) (Main.listeners s) ->
  calls c (snd (Main.run s (Main.Unsubscribe c :: tr))) = [].
Proof.
  intros s Hw Hin.
  assert (Hs : sound s) by apply sound_run, sound_init.
  assert (Hc : (c < Main.nextHandler s)%nat).
  { destruct Hs as (_ & _ & _ & Hh & _). eapply Hh; eauto. }
  rewrite main_run_cons; cbn [fst snd Main.step].
  assert (Hd : detached c (fst (@Main.unsubscribe I O c s))).
  { split; [apply (sound_step s (@Main.Unsubscribe I O c) Hs)|].
    unfold Main.unsubscribe. apply Nat.ltb_lt in Hc. rewrite Hc, Hw. simpl.
    split; [now apply Nat.ltb_lt|].
    rewrite Hw. intros w' [= <-] Hin'. apply filter_In in Hin' as [_ Hin'].
    simpl in Hin'. now rewrite !Nat.eqb_refl in Hin'. }
  rewrite calls_app, (detached_run c _ tr Hd), app_nil_r.
  unfold Main.unsubscribe. destruct (Nat.ltb c (Main.nextHandler s)); auto.
  now rewrite Hw.
Qed.

Lemma callback_never_runs_after_unsubscribe_witness :
  let tr0 := [@Main.Start nat nat 7%nat; Main.Subscribe; Main.Subscribe;
              Main.Message 0%nat 9%nat] in
  let tr := [@Main.Message nat nat 0%nat 10%nat; Main.Stop; Main.Start 8%nat;
             Main.Subscribe; Main.Message 1%nat 11%nat] in
  let s := fst (Main.run Main.init tr0) in
  Main.worker s = Some 0%nat /\
  In (0%nat, Handler 0%nat) (Main.listeners s) /\
  calls 0%nat (snd (Main.run Main.init tr0)) = [9%nat] /\
  calls 0%nat (snd (Main.run s (Main.Unsubscribe 0%nat :: tr))) = [] /\
  calls 1%nat (snd (Main.run s (Main.Unsubscribe 0%nat :: tr))) = [10%nat].
Proof.
  split; [reflexivity|]. split; [right; left; reflexivity|].
  split; [reflexivity|]. split; [|reflexivity].
  exact (callback_never_runs_after_unsubscribe
           [@Main.Start nat nat 7%nat; Main.Subscribe; Main.Subscribe;
            Main.Message 0%nat 9%nat]
           [@Main.Message nat nat 0%nat 10%nat; Main.Stop; Main.Start 8%nat;
            Main.Subscribe; Main.Message 1%nat 11%nat]
           0%nat 0%nat eq_refl (or_intror (or_introl eq_refl))).
Defined.

(** * Further properties of the registry and of the worker side *)

(** X8: [addWorker] memoizes by source text: once a call has returned a
    channel for a source, every later call on that source returns the same
    channel, whatever new channel it could have built, and leaves the
    registry as it is; and a call never replaces the entry of any key. *)
Theorem addWorker_memoizes {Api : Type} (rt : Registry.runtime) (fresh1 fresh2 : Api)
    (g g' : list (string * Api)) (src : string) (api : Api) :
  Registry.addWorker rt fresh1 g src = Registry.Returned (api, g') ->
  Registry.addWorker rt fresh2 g' src = Registry.Returned (api, g') /\
  forall k a, Registry.lookup k g = Some a -> Registry.lookup k g' = Some a.
Proof.
  unfold Registry.addWorker.
  destruct (Registry.globalKey rt src) as [key|]; [|discriminate].
  destruct (Registry.lookup key g) as [a0|] eqn:Hl.
  - intros [= <- <-]. rewrite Hl. auto.
  - intros [= <- <-]. simpl. rewrite String.eqb_refl. split; auto.
    intros k a Hk. destruct (String.eqb_spec key k) as [->|Hne]; [congruence|auto].
Qed.

Lemma addWorker_memoizes_witness :
  Registry.addWorker host_without_btoa 1%nat [] "f" =
    Registry.Returned (1%nat, [("__WebWorker_f"%string, 1%nat)]) /\
  Registry.addWorker host_without_btoa 2%nat [("__WebWorker_f"%string, 1%nat)] "f" =
    Registry.Returned (1%nat, [("__WebWorker_f"%string, 1%nat)]).
Proof.
  split; [reflexivity|].
  exact (proj1 (addWorker_memoizes host_without_btoa 1%nat 2%nat []
                  [("__WebWorker_f"%string, 1%nat)] "f" 1%nat eq_refl)).
Defined.

(** ** Subscriptions inside the worker *)
Section WorkerSubscriptions.
Context {A B : Type}.
Implicit Types (s : WorkerSide.state A) (tr : list (WorkerSide.event A B)) (c : sid).

Lemma calls_continuation c (o : list (output A B)) :
  calls c (WorkerSide.continuation o) = [].
Proof.
  unfold WorkerSide.continuation. induction o as [|x o IH]; simpl; auto.
  destruct x; simpl; auto.
  destruct (Nat.eqb r (@WorkerSide.bootReceiver A)); simpl; auto.
Qed.

(** A handler runs on the message of the event, and on nothing else. *)
Lemma calls_dispatch c (msg m : A) (ls : list listener) (b : Mailbox.t A) :
  In m (calls c (snd (@Mailbox.dispatch A B msg ls b))) -> m = msg.
Proof.
  revert b. induction ls as [|[|c'] ls IH]; intros b; simpl; [tauto| |].
  - pose proof (calls_route (O:=B) c msg b) as Hr.
    destruct (Mailbox.route msg b) as [b1 o1]. simpl in Hr.
    specialize (IH b1). destruct (Mailbox.dispatch msg ls b1). simpl in *.
    rewrite calls_app, Hr. exact IH.
  - specialize (IH b). destruct (Mailbox.dispatch msg ls b). simpl in *.
    destruct (Nat.eqb c' c); auto. intros [<-|Hin]; auto.
Qed.

Lemma calls_worker_step c (m : A) s (e : WorkerSide.event A B) :
  In m (calls c (snd (WorkerSide.step s e))) -> In m (WorkerSide.arrivals [e]).
Proof.
  destruct e; simpl; unfold WorkerSide.user;
    try (destruct (WorkerSide.started s); simpl; tauto).
  - unfold WorkerSide.message.
    destruct (box_settle s (Mailbox.dispatch (O:=B) msg (WorkerSide.listeners s)
                              (WorkerSide.box s))) as (_ & _ & Ho).
    rewrite Ho, calls_app, calls_continuation, app_nil_r.
    intros Hin. left. symmetry. eapply calls_dispatch; eauto.
  - unfold WorkerSide.timeout.
    destruct (box_settle s (Mailbox.timeout (O:=B) (WorkerSide.now s) r (WorkerSide.box s)))
      as (_ & _ & Ho).
    rewrite Ho, calls_app, calls_continuation, app_nil_r, calls_timeout. tauto.
  - destruct (WorkerSide.started s); simpl; [|tauto].
    unfold WorkerSide.receive.
    pose proof (calls_receive (O:=B) c (WorkerSide.now s) timeoutMs (WorkerSide.box s)) as H.
    destruct (Mailbox.receive _ _ _). simpl in *. rewrite H. tauto.
  - destruct (WorkerSide.started s); simpl; [|tauto].
    unfold WorkerSide.poll.
    pose proof (calls_poll (O:=B) c (WorkerSide.box s)) as H.
    destruct (Mailbox.poll _). simpl in *. rewrite H. tauto.
  - destruct (WorkerSide.started s); simpl; [|tauto].
    destruct (Nat.ltb c0 (WorkerSide.nextHandler s)); simpl; tauto.
Qed.

Lemma calls_worker_run c (m : A) s tr :
  In m (calls c (snd (WorkerSide.run s tr))) -> In m (WorkerSide.arrivals tr).
Proof.
  revert s. induction tr as [|e tr IH]; intros s; [simpl; tauto|].
  rewrite worker_run_cons, arrivals_cons. cbn [fst snd]. rewrite calls_app.
  intros Hin. apply in_app_iff in Hin as [Hin|Hin]; apply in_app_iff.
  - left. eapply calls_worker_step; eauto.
  - right. eapply IH; eauto.
Qed.

Lemma calls_worker_boot c (m : A) s tr :
  booting s ->
  In m (calls c (snd (WorkerSide.run s tr))) -> In m (tl (WorkerSide.arrivals tr)).
Proof.
  revert s. induction tr as [|e tr IH]; intros s Hs; [simpl; tauto|].
  rewrite worker_run_cons. cbn [fst snd]. rewrite calls_app.
  destruct (WorkerSide.arrivals [e]) as [|d [|? ?]] eqn:He.
  - destruct (booting_step s e Hs He) as [Hs1 Ho1].
    rewrite arrivals_cons, He, Ho1. simpl. apply IH, Hs1.
  - assert (e = WorkerSide.Message d) as ->.
    { destruct e; try discriminate He. now injection He as ->. }
    simpl. destruct (booting_message (B:=B) s d Hs) as (_ & _ & Ho1).
    rewrite Ho1. simpl. apply calls_worker_run.
  - destruct e; discriminate He.
Qed.

End WorkerSubscriptions.

(** X9: inside the worker no subscription callback ever runs on the
    initialization payload: whatever the worker does, a callback runs only
    on messages that arrived after the first one. *)
Theorem worker_callbacks_skip_init_data {A B : Type} (wtr : list (WorkerSide.event A B))
    (c : sid) (m : A) :
  In m (calls c (snd (WorkerSide.run (fst (@WorkerSide.workerBootstrap A B)) wtr))) ->
  In m (tl (WorkerSide.arrivals wtr)).
Proof.
  apply calls_worker_boot. apply (booting_bootstrap (B:=B)).
Qed.

Lemma worker_callbacks_skip_init_data_witness :
  let wtr := [@WorkerSide.Message nat nat 7%nat; WorkerSide.Subscribe;
              WorkerSide.Message 8%nat; WorkerSide.Unsubscribe 0%nat;
              WorkerSide.Message 9%nat] in
  In 8%nat (calls 0%nat (snd (WorkerSide.run (fst (@WorkerSide.workerBootstrap nat nat)) wtr))) /\
  calls 0%nat (snd (WorkerSide.run (fst (@WorkerSide.workerBootstrap nat nat)) wtr)) = [8%nat] /\
  In 8%nat (tl (WorkerSide.arrivals wtr)).
Proof.
  split; [left; reflexivity|]. split; [reflexivity|].
  exact (worker_callbacks_skip_init_data
           [@WorkerSide.Message nat nat 7%nat; WorkerSide.Subscribe;
            WorkerSide.Message 8%nat; WorkerSide.Unsubscribe 0%nat;
            WorkerSide.Message 9%nat]
           0%nat 8%nat (or_introl eq_refl)).
Defined.

(** ** A subscription made by the worker *)
Section WorkerHandlers.
Context {A B : Type}.
Implicit Types (s : WorkerSide.state A) (tr : list (WorkerSide.event A B)) (c : sid).







End WorkerHandlers.


